(** * Orchestration core of the ADK Go examples

    Part 1 embeds the client-side helper [isFinalResponse] of the Go
    examples (src/unnamed/part_010, duplicated in
    tools/overview/weather_sentiment).  The later parts embed the runtime
    behaviour that the examples call into (workflow agents, the run loop,
    the session store, instruction templating, the LLM turn); that runtime
    is the ADK library itself, which is not part of this repository, so
    those definitions follow the spec.  Part 7 embeds the examples' own
    tools, callbacks and event loops from their Go sources. *)

From Stdlib Require Import String Ascii List Bool Arith Lia ZArith QArith_base.
From stdpp Require Import base gmap strings list.
Import ListNotations.

Set Warnings "-register-all".

(** ** Part 1: [isFinalResponse] (src/unnamed/part_010, lines 201-241) *)
Module FinalResponse.

(** genai.FunctionCall / FunctionResponse / CodeExecutionResult: only
    whether the pointer is nil matters to the predicate. *)
Record FunctionCall := { FC_ID : string; FC_Name : string }.
Record FunctionResponse := { FR_ID : string; FR_Name : string }.
Record CodeExecutionResult := { CER_Output : string }.

(** genai.Part: every pointer field is an [option]. *)
Record Part := {
  Text : string;
  FunctionCall_ : option FunctionCall;
  FunctionResponse_ : option FunctionResponse;
  CodeExecutionResult_ : option CodeExecutionResult
}.

(** genai.Content *)
Record Content := { Parts : list Part; Role : string }.

(** model.LLMResponse *)
Record LLMResponse := { Content_ : option Content; Partial : bool }.

(** session.EventActions (the fields the predicate reads) *)
Record EventActions := { SkipSummarization : bool; Escalate : bool; TransferToAgent : string }.

(** session.Event; [LLMResponse] is a pointer in part_010. *)
Record Event := {
  Author : string;
  Actions : EventActions;
  LongRunningToolIDs : list string;
  LLMResponse_ : option LLMResponse
}.

(** func hasFunctionCalls(resp *model.LLMResponse) bool *)
Definition hasFunctionCalls (resp : option LLMResponse) : bool :=
  match resp with
  | None => false
  | Some r =>
      match Content_ r with
      | None => false
      | Some c => existsb (fun part => match FunctionCall_ part with Some _ => true | None => false end) (Parts c)
      end
  end.

(** func hasFunctionResponses(resp *model.LLMResponse) bool *)
Definition hasFunctionResponses (resp : option LLMResponse) : bool :=
  match resp with
  | None => false
  | Some r =>
      match Content_ r with
      | None => false
      | Some c => existsb (fun part => match FunctionResponse_ part with Some _ => true | None => false end) (Parts c)
      end
  end.

(** func hasTrailingCodeExecutionResult(resp *model.LLMResponse) bool *)
Definition hasTrailingCodeExecutionResult (resp : option LLMResponse) : bool :=
  match resp with
  | None => false
  | Some r =>
      match Content_ r with
      | None => false
      | Some c =>
          match Parts c with
          | [] => false
          | p :: ps =>
              let lastPart := List.last (p :: ps) p in
              match CodeExecutionResult_ lastPart with Some _ => true | None => false end
          end
      end
  end.

(** func isFinalResponse(ev *session.Event) bool *)
Definition isFinalResponse (ev : Event) : bool :=
  if SkipSummarization (Actions ev) || (0 <? length (LongRunningToolIDs ev))%nat then true
  else
    match LLMResponse_ ev with
    | None => true
    | Some r =>
        negb (hasFunctionCalls (Some r)) && negb (hasFunctionResponses (Some r))
        && negb (Partial r) && negb (hasTrailingCodeExecutionResult (Some r))
    end.

(** The last element of a list, if any. *)
Definition last_opt {A} (l : list A) : option A :=
  match l with [] => None | x :: xs => Some (List.last (x :: xs) x) end.

(** The parts of a response, [] when its content is nil. *)
Definition resp_parts (r : LLMResponse) : list Part :=
  match Content_ r with None => [] | Some c => Parts c end.

(** The predicate as the claim words it. *)
Definition final_response_described (ev : Event) : Prop :=
  SkipSummarization (Actions ev) = true
  \/ LongRunningToolIDs ev <> []
  \/ LLMResponse_ ev = None
  \/ (exists r, LLMResponse_ ev = Some r
        /\ (forall p, In p (resp_parts r) -> FunctionCall_ p = None)
        /\ (forall p, In p (resp_parts r) -> FunctionResponse_ p = None)
        /\ Partial r = false
        /\ (forall p, last_opt (resp_parts r) = Some p -> CodeExecutionResult_ p = None)).

End FinalResponse.

(** ** Part 2: workflow agents, the run loop and the session store

    Modelled from the spec: the ADK runtime packages
    agent/workflowagents/{sequentialagent,parallelagent,loopagent},
    runner and session (InMemoryService) that the examples import are not
    in this repository.  The definitions below follow spec sections 3,
    4.1, 4.3, 4.5 and 5.  An agent's [Run] is a finite stream of items;
    the state handed to an agent is the in-flight state of the Run, and
    every forwarded Event's delta is committed to it in forwarding
    order. *)
Module Orchestration.

(** Event (spec section 3), with the actions the orchestrator reads. *)
Record event := {
  author : string;
  text : string;
  stateDelta : list (string * string);
  escalate : bool;
  transferToAgent : string
}.

(** What an observer of a Run sees: an agent starting (with a snapshot of
    the state it is handed), a forwarded Event, a terminal error, or the
    observation horizon of an unbounded loop. *)
Inductive item :=
| Started (name : string) (snapshot : gmap string string)
| Emitted (e : event)
| Failed (err : string)
| Horizon.

(** Applying a delta: last write wins per key, in delta order. *)
Definition apply_delta (st : gmap string string) (d : list (string * string)) : gmap string string :=
  fold_left (fun m kv => <[fst kv := snd kv]> m) d st.

(** Committing a stream: every Event's delta, in Event order. *)
Definition commit (st : gmap string string) (t : list item) : gmap string string :=
  fold_left (fun m it => match it with Emitted e => apply_delta m (stateDelta e) | _ => m end) t st.

(** Items after which the enclosing container stops traversal: an
    escalation, a transfer, an error (spec 4.3, 4.4, 7). *)
Definition is_stop (it : item) : bool :=
  match it with
  | Emitted e => escalate e || negb (String.eqb (transferToAgent e) "")
  | Failed _ => true
  | Horizon => true
  | Started _ _ => false
  end.

Definition has_stop (t : list item) : bool := existsb is_stop t.

(** Forward a child's stream up to and including its first stopping item. *)
Fixpoint cut (t : list item) : list item :=
  match t with
  | [] => []
  | x :: t' => if is_stop x then [x] else x :: cut t'
  end.

Fixpoint cut_tagged (t : list (nat * item)) : list (nat * item) :=
  match t with
  | [] => []
  | x :: t' => if is_stop (snd x) then [x] else x :: cut_tagged t'
  end.

(** The agent tree.  A leaf stands for an LLM, Custom or Remote agent: its
    Run reads the invocation input and the state it is handed and yields
    its Events and possibly an error.  A Parallel node carries the
    arrival schedule of its children's items (which child produces the
    next item); the schedule is the nondeterminism of concurrent
    execution. *)
Inductive agent :=
| LeafAgent (name : string) (body : string -> gmap string string -> list event * option string)
| Sequential (name : string) (subAgents : list agent)
| Parallel (name : string) (subAgents : list agent) (schedule : list nat)
| Loop (name : string) (subAgents : list agent) (maxIterations : option nat).

Definition agent_name (a : agent) : string :=
  match a with
  | LeafAgent n _ | Sequential n _ | Parallel n _ _ | Loop n _ _ => n
  end.

Definition leaf_items (nm : string) (st : gmap string string) (r : list event * option string) : list item :=
  Started nm st :: map Emitted (fst r) ++ match snd r with Some e => [Failed e] | None => [] end.

(** Sequential traversal of a child list: each child's stream is fully
    forwarded and committed before the next child starts. *)
Fixpoint run_children (r : agent -> gmap string string -> list item) (l : list agent)
    (st : gmap string string) : list item :=
  match l with
  | [] => []
  | c :: l' =>
      let t := cut (r c st) in
      if has_stop t then t else t ++ run_children r l' (commit st t)
  end.

(** [k] iterations of a Loop's child list. *)
Fixpoint loop_iters (r : agent -> gmap string string -> list item) (subs : list agent) (k : nat)
    (st : gmap string string) : list item :=
  match k with
  | 0 => []
  | S k' =>
      let t := run_children r subs st in
      if has_stop t then t else t ++ loop_iters r subs k' (commit st t)
  end.

(** An unset [maxIterations]: iterate until a stop, observed up to a
    horizon of [k] iterations. *)
Fixpoint loop_unbounded (r : agent -> gmap string string -> list item) (subs : list agent) (k : nat)
    (st : gmap string string) : list item :=
  match k with
  | 0 => [Horizon]
  | S k' =>
      let t := run_children r subs st in
      if has_stop t then t else t ++ loop_unbounded r subs k' (commit st t)
  end.

Definition set_nth {A} (l : list A) (i : nat) (x : A) : list A := <[i := x]> l.

(** Merge by arrival: the schedule says which child produces next; an
    entry naming a finished child is skipped.  When the schedule runs out
    the remaining items arrive child by child. *)
Fixpoint flush (i : nat) (qs : list (list item)) : list (nat * item) :=
  match qs with
  | [] => []
  | q :: qs' => map (fun x => (i, x)) q ++ flush (S i) qs'
  end.

Fixpoint merge (sched : list nat) (qs : list (list item)) : list (nat * item) :=
  match sched with
  | [] => flush 0 qs
  | i :: s =>
      match qs !! i with
      | Some (x :: xs) => (i, x) :: merge s (set_nth qs i xs)
      | _ => merge s qs
      end
  end.

(** The items of a merged stream that came from child [i]. *)
Definition from_child (i : nat) (p : nat * item) : bool := Nat.eqb (fst p) i.

(** The Run of an agent.  [fuel] is the observation horizon of loops
    without [maxIterations]; [input] is the invocation's user input. *)
Fixpoint run (fuel : nat) (input : string) (a : agent) (st : gmap string string) {struct a} : list item :=
  match a with
  | LeafAgent nm body => leaf_items nm st (body input st)
  | Sequential nm subs => Started nm st :: run_children (fun c s => run fuel input c s) subs st
  | Parallel nm subs sched =>
      Started nm st :: map snd (cut_tagged (merge sched (map (fun c => cut (run fuel input c st)) subs)))
  | Loop nm subs (Some n) => Started nm st :: loop_iters (fun c s => run fuel input c s) subs n st
  | Loop nm subs None => Started nm st :: loop_unbounded (fun c s => run fuel input c s) subs fuel st
  end.

(** All agents of a tree, in preorder. *)
Fixpoint subtrees (a : agent) : list agent :=
  a :: match a with
       | LeafAgent _ _ => []
       | Sequential _ subs | Parallel _ subs _ | Loop _ subs _ => flat_map subtrees subs
       end.

(** The root Orchestrator resolves a transfer target by name in the tree. *)
Definition find_agent (nm : string) (root : agent) : option agent :=
  find (fun x => String.eqb (agent_name x) nm) (subtrees root).

(** The Orchestrator (spec 4.5): pump the current agent's stream; on a
    Event with [transferToAgent = B] the current agent's turn ends and the
    remainder of the Run is dispatched to the agent named [B], on the
    state committed so far; an unknown target is a TransferError.
    [hops] bounds the number of transfers observed. *)
Fixpoint orchestrate (fuel : nat) (input : string) (hops : nat) (root cur : agent)
    (st : gmap string string) : list item :=
  let t := cut (run fuel input cur st) in
  match FinalResponse.last_opt t with
  | Some (Emitted e) =>
      if String.eqb (transferToAgent e) "" then t
      else match find_agent (transferToAgent e) root with
           | Some b =>
               t ++ match hops with
                    | 0 => [Horizon]
                    | S h => orchestrate fuel input h root b (commit st t)
                    end
           | None => t ++ [Failed "TransferError"]
           end
  | _ => t
  end.

(** Session store (spec 3, 4.1). *)
Record session := {
  appName : string;
  userID : string;
  sessionID : string;
  events : list event;
  sstate : gmap string string
}.

Definition is_temp (k : string) : bool := String.prefix "temp:" k.

(** What of a delta is persisted: everything but [temp:] keys. *)
Definition durable_delta (d : list (string * string)) : list (string * string) :=
  List.filter (fun kv => negb (is_temp (fst kv))) d.

Definition durable (e : event) : event :=
  {| author := author e; text := text e; stateDelta := durable_delta (stateDelta e);
     escalate := escalate e; transferToAgent := transferToAgent e |}.

(** appendEvent: persist the Event with its durable delta, merge that delta. *)
Definition appendEvent (s : session) (e : event) : session :=
  {| appName := appName s; userID := userID s; sessionID := sessionID s;
     events := events s ++ [durable e];
     sstate := apply_delta (sstate s) (durable_delta (stateDelta e)) |}.

Definition append_items (s : session) (t : list item) : session :=
  fold_left (fun s it => match it with Emitted e => appendEvent s e | _ => s end) t s.

(** One Run against a session: the in-flight state starts from the
    persisted state; every forwarded Event is appended; when the Run ends
    (normally or with an error) only the session remains, so the
    in-flight [temp:] values are gone. *)
Definition run_session (fuel hops : nat) (input : string) (root : agent) (s : session)
    : session * list item :=
  let t := orchestrate fuel input hops root root (sstate s) in
  (append_items s t, t).

Definition temp_free (st : gmap string string) : Prop :=
  forall k, is_temp k = true -> st !! k = None.

(** The value last written to [k] by a delta / by a stream's Events. *)
Fixpoint delta_last (k : string) (d : list (string * string)) : option string :=
  match d with
  | [] => None
  | kv :: d' =>
      match delta_last k d' with
      | Some w => Some w
      | None => if String.eqb (fst kv) k then Some (snd kv) else None
      end
  end.

Fixpoint last_write (k : string) (t : list item) : option string :=
  match t with
  | [] => None
  | it :: t' =>
      match last_write k t' with
      | Some w => Some w
      | None => match it with Emitted e => delta_last k (stateDelta e) | _ => None end
      end
  end.

(** How many times an agent named [nm] starts in a stream. *)
Definition count_started (nm : string) (t : list item) : nat :=
  length (List.filter (fun it => match it with Started n _ => String.eqb n nm | _ => false end) t).

Definition all_names (a : agent) : list string := map agent_name (subtrees a).

(** A stream in which a stopping item can only be the last item. *)
Definition stops_last (t : list item) : Prop :=
  forall pre x post, t = pre ++ x :: post -> is_stop x = true -> post = [].

Definition agent_subs (a : agent) : list agent :=
  match a with
  | LeafAgent _ _ => []
  | Sequential _ subs | Parallel _ subs _ | Loop _ subs _ => subs
  end.

Definition is_workflow (a : agent) : bool :=
  match a with LeafAgent _ _ => false | _ => true end.

(** Induction over agent trees, with the hypothesis on every child. *)
Section AgentInd.
Variable P : agent -> Prop.
Hypothesis HLeaf : forall n b, P (LeafAgent n b).
Hypothesis HSeq : forall n subs, Forall P subs -> P (Sequential n subs).
Hypothesis HPar : forall n subs sc, Forall P subs -> P (Parallel n subs sc).
Hypothesis HLoop : forall n subs m, Forall P subs -> P (Loop n subs m).

Fixpoint agent_ind' (a : agent) : P a :=
  let fix go (l : list agent) : Forall P l :=
    match l with
    | [] => @List.Forall_nil _ P
    | x :: l' => @List.Forall_cons _ P x l' (agent_ind' x) (go l')
    end in
  match a with
  | LeafAgent n b => HLeaf n b
  | Sequential n subs => HSeq n subs (go subs)
  | Parallel n subs sc => HPar n subs sc (go subs)
  | Loop n subs m => HLoop n subs m (go subs)
  end.
End AgentInd.

End Orchestration.

(** ** Part 3: instruction templating

    Modelled from the spec: instructionutil.InjectSessionState and the
    LLM agent's templating of [Instruction] (imported by
    sessions/instruction_provider and sessions/instruction_template) are
    not in this repository.  Spec 4.2 and 8: [{key}] is replaced by the
    State value of [key]; [{{literal}}] is an escape and renders as
    [{literal}] without lookup; a key missing from State is a StateError
    (spec 7), rendered here as [None].  The renderer scans the template
    once, left to right. *)
Module Template.

Inductive mode :=
| Normal             (* copying text *)
| Open               (* just read one opening brace *)
| InKey (k : string) (* reading a placeholder name *)
| Close.             (* just read one closing brace *)

Definition ocons (c : Ascii.ascii) (o : option string) : option string :=
  option_map (String c) o.

Definition oapp (s : string) (o : option string) : option string :=
  option_map (append s) o.

Definition lbrace : Ascii.ascii := "{"%char.
Definition rbrace : Ascii.ascii := "}"%char.

Fixpoint render_go (st : gmap string string) (m : mode) (s : string) : option string :=
  match s with
  | EmptyString =>
      Some (match m with
            | Normal => ""
            | Open => String lbrace ""
            | InKey k => String lbrace k
            | Close => String rbrace ""
            end)
  | String c s' =>
      match m with
      | Normal =>
          if Ascii.eqb c lbrace then render_go st Open s'
          else if Ascii.eqb c rbrace then render_go st Close s'
          else ocons c (render_go st Normal s')
      | Open =>
          if Ascii.eqb c lbrace then ocons lbrace (render_go st Normal s')
          else if Ascii.eqb c rbrace then
            match st !! "" with Some v => oapp v (render_go st Normal s') | None => None end
          else render_go st (InKey (String c "")) s'
      | InKey k =>
          if Ascii.eqb c rbrace then
            match st !! k with Some v => oapp v (render_go st Normal s') | None => None end
          else render_go st (InKey (k ++ String c "")%string) s'
      | Close =>
          if Ascii.eqb c rbrace then ocons rbrace (render_go st Normal s')
          else if Ascii.eqb c lbrace then ocons rbrace (render_go st Open s')
          else ocons rbrace (ocons c (render_go st Normal s'))
      end
  end.

Definition render (st : gmap string string) (template : string) : option string :=
  render_go st Normal template.

(** A template seen as a sequence of pieces: literal text, a placeholder
    [{k}], an escaped [{{s}}]. *)
Inductive segment :=
| Lit (s : string)
| Var (k : string)
| Esc (s : string).

Definition seg_text (g : segment) : string :=
  match g with
  | Lit s => s
  | Var k => String lbrace (k ++ String rbrace "")%string
  | Esc s => String lbrace (String lbrace (s ++ String rbrace (String rbrace ""))%string)
  end.

(** What the spec says each piece renders to. *)
Definition seg_render (st : gmap string string) (g : segment) : option string :=
  match g with
  | Lit s => Some s
  | Var k => st !! k
  | Esc s => Some (String lbrace (s ++ String rbrace "")%string)
  end.

Fixpoint no_braces (s : string) : bool :=
  match s with
  | EmptyString => true
  | String c s' => negb (Ascii.eqb c lbrace) && negb (Ascii.eqb c rbrace) && no_braces s'
  end.

Definition seg_ok (g : segment) : bool :=
  match g with Lit s | Var s | Esc s => no_braces s end.

Fixpoint segs_text (gs : list segment) : string :=
  match gs with [] => "" | g :: gs' => (seg_text g ++ segs_text gs')%string end.

Fixpoint segs_render (st : gmap string string) (gs : list segment) : option string :=
  match gs with
  | [] => Some ""
  | g :: gs' =>
      match seg_render st g, segs_render st gs' with
      | Some a, Some b => Some (a ++ b)%string
      | _, _ => None
      end
  end.

End Template.

(** ** Part 4: the LLM agent's model step and its callbacks

    Modelled from the spec: llmagent (the Before-Model / After-Model
    pipeline that onBeforeModelGuardrail in src/unnamed/part_003 plugs
    into) is not in this repository.  Spec 4.2 steps 2-4 and 4.4: each
    interceptor returns no-op, a replacement, or an error; they run in
    registration order; the first non-no-op result decides. *)
Module LlmTurn.

Record LLMRequest := { Contents : list string }.
Record LLMResponse := { RespText : string }.

Inductive callback_result (A : Type) :=
| NoOp
| Replace (r : A)
| CbError (e : string).
Arguments NoOp {A}.
Arguments Replace {A} r.
Arguments CbError {A} e.

Definition BeforeModelCallback := LLMRequest -> callback_result LLMResponse.
Definition AfterModelCallback := LLMResponse -> callback_result LLMResponse.

Inductive turn_outcome :=
| TurnResult (r : LLMResponse)
| TurnError (e : string).

(** What a turn produced, and how many times the model capability and
    the Before-Model callbacks were invoked. *)
Record turn := { outcome : turn_outcome; model_calls : nat; before_invoked : nat }.

(** Run interceptors in order; stop at the first non-no-op.  The count is
    the number of interceptors invoked. *)
Fixpoint run_interceptors {X A : Type} (cbs : list (X -> callback_result A)) (x : X)
    : callback_result A * nat :=
  match cbs with
  | [] => (NoOp, 0)
  | cb :: rest =>
      match cb x with
      | NoOp => let '(r, n) := run_interceptors rest x in (r, S n)
      | other => (other, 1)
      end
  end.

Definition llm_turn (before : list BeforeModelCallback) (after : list AfterModelCallback)
    (model : LLMRequest -> LLMResponse) (req : LLMRequest) : turn :=
  let '(b, n) := run_interceptors before req in
  match b with
  | Replace r => {| outcome := TurnResult r; model_calls := 0; before_invoked := n |}
  | CbError e => {| outcome := TurnError e; model_calls := 0; before_invoked := n |}
  | NoOp =>
      let resp := model req in
      let o := match fst (run_interceptors after resp) with
               | Replace r => TurnResult r
               | CbError e => TurnError e
               | NoOp => TurnResult resp
               end in
      {| outcome := o; model_calls := 1; before_invoked := n |}
  end.

(** onBeforeModelGuardrail (src/unnamed/part_003, lines 93-116): block the
    request when some part of some content contains "finance". *)
Fixpoint contains (needle hay : string) : bool :=
  match hay with
  | EmptyString => String.prefix needle hay
  | String _ rest => String.prefix needle hay || contains needle rest
  end.

Definition onBeforeModelGuardrail (req : LLMRequest) : callback_result LLMResponse :=
  if existsb (contains "finance") (Contents req)
  then Replace {| RespText := "I'm sorry, but I cannot discuss financial topics." |}
  else NoOp.

End LlmTurn.

(** ** Part 5: long-running tools

    Modelled from the spec: the function-tool runtime and resumption
    handling (exercised by createTicketAsync and main in
    src/unnamed/part_012) are not in this repository.  Spec 3, 4.2 step
    3 and 5: a long-running tool is executed once and its placeholder
    result ends the turn with a [longRunningToolIDs] entry; the call
    stays open (the turn suspended) while function responses carry
    [willContinue = true]; the one with [willContinue = false] resumes
    the agent, which calls the model with that value.  The call ID is
    allocated by the agent. *)
Module LongRunning.

Inductive content :=
| UserText (s : string)
| FnCall (id : nat) (name : string) (args : string)
| FnResponse (id : nat) (name : string) (value : string) (willContinue : bool)
| ModelText (s : string).

Inductive model_out :=
| Say (s : string)
| CallTool (name : string) (args : string).

(** An emitted Event: its content and its [longRunningToolIDs]. *)
Record ev := { ev_content : content; ev_longRunningToolIDs : list nat }.

Record agent_state := {
  history : list content;   (* the session's conversation *)
  pending : list nat;       (* open long-running calls *)
  next_id : nat;            (* next function-call ID *)
  started : list nat;       (* one entry per execution of the long-running tool *)
  model_calls : nat
}.

Section Turn.
Variable model : list content -> model_out.
Variable lr_name : string.
Variable lr_tool : string -> string.            (* placeholder result from the args *)
Variable sync_tool : string -> option (string -> string).

Definition with_history (s : agent_state) (h : list content) : agent_state :=
  {| history := h; pending := pending s; next_id := next_id s; started := started s;
     model_calls := model_calls s |}.

(** The model/tool loop of one turn; [fuel] bounds the model calls. *)
Fixpoint call_model (fuel : nat) (s : agent_state) : agent_state * list ev :=
  match fuel with
  | 0 => (s, [])
  | S f =>
      let s1 := {| history := history s; pending := pending s; next_id := next_id s;
                   started := started s; model_calls := S (model_calls s) |} in
      match model (history s) with
      | Say t => (with_history s1 (history s ++ [ModelText t]), [{| ev_content := ModelText t; ev_longRunningToolIDs := [] |}])
      | CallTool nm args =>
          let id := next_id s in
          if String.eqb nm lr_name then
            let p := lr_tool args in
            ({| history := history s ++ [FnCall id nm args; FnResponse id nm p true];
                pending := pending s ++ [id]; next_id := S id; started := started s ++ [id];
                model_calls := S (model_calls s) |},
             [{| ev_content := FnCall id nm args; ev_longRunningToolIDs := [id] |};
              {| ev_content := FnResponse id nm p true; ev_longRunningToolIDs := [id] |}])
          else
            let out := match sync_tool nm with Some g => g args | None => "error: tool not found" end in
            let s2 := {| history := history s ++ [FnCall id nm args; FnResponse id nm out false];
                         pending := pending s; next_id := S id; started := started s;
                         model_calls := S (model_calls s) |} in
            let '(s3, evs) := call_model f s2 in
            (s3, {| ev_content := FnCall id nm args; ev_longRunningToolIDs := [] |}
                 :: {| ev_content := FnResponse id nm out false; ev_longRunningToolIDs := [] |} :: evs)
      end
  end.

(** One turn on an input message.  A function response for a call that
    is not open is left unhandled (the spec says nothing of it). *)
Definition turn (fuel : nat) (s : agent_state) (input : content) : agent_state * list ev :=
  match input with
  | UserText t => call_model fuel (with_history s (history s ++ [UserText t]))
  | FnResponse id nm v wc =>
      if existsb (Nat.eqb id) (pending s) then
        if wc then (with_history s (history s ++ [FnResponse id nm v true]), [])
        else call_model fuel
               {| history := history s ++ [FnResponse id nm v false];
                  pending := List.filter (fun j => negb (Nat.eqb j id)) (pending s);
                  next_id := next_id s; started := started s; model_calls := model_calls s |}
      else (s, [])
  | _ => (s, [])
  end.

Fixpoint turns (fuel : nat) (s : agent_state) (inputs : list content) : agent_state * list ev :=
  match inputs with
  | [] => (s, [])
  | i :: is =>
      let '(s1, e1) := turn fuel s i in
      let '(s2, e2) := turns fuel s1 is in
      (s2, (e1 ++ e2)%list)
  end.

End Turn.

(** IDs already used are below [next_id]. *)
Definition ids_fresh (s : agent_state) : Prop :=
  (forall j, In j (pending s) -> j < next_id s) /\ (forall j, In j (started s) -> j < next_id s).

End LongRunning.

(** ** Part 6: scenarios

    Small agent trees and sessions shaped like the repository's examples,
    on which the properties below are exercised. *)
Module Scenarios.
Import Orchestration.

Definition mk_event (a t : string) (d : list (string * string)) (esc : bool) (tr : string) : event :=
  {| author := a; text := t; stateDelta := d; escalate := esc; transferToAgent := tr |}.

(** loop/main.go: a writer and a checker whose ExitLoop tool escalates. *)
Definition draft_event : event := mk_event "writer" "draft" [("draft", "v1")] false "".
Definition done_event : event := mk_event "checker" "done" [] true "".
Definition writer : agent := LeafAgent "writer" (fun _ _ => ([draft_event], None)).
Definition checker : agent := LeafAgent "checker" (fun _ _ => ([done_event], None)).
Definition refinement_loop : agent := Loop "RefinementLoop" [writer; checker] (Some 5).

(** multi-agent/main.go: a poller that never escalates. *)
Definition poll : agent :=
  LeafAgent "poll" (fun _ _ => ([mk_event "poll" "pending" [("status", "pending")] false ""], None)).
Definition poller : agent := Loop "poller" [poll] (Some 3).

(** A child whose model call fails. *)
Definition failing_child : agent :=
  LeafAgent "c" (fun _ _ => ([], Some "ModelError"%string)).

(** A child whose checkAndTransfer-style tool hands over to support_agent. *)
Definition transferring_child : agent :=
  LeafAgent "c" (fun _ _ => ([mk_event "c" "" [] false "support_agent"], None)).

(** A child that is itself a Loop without maxIterations and never escalates. *)
Definition endless_child : agent := Loop "inner" [poll] None.

(** multi-agent/main.go: QualityChecker writes its verdict (here "fail")
    under [quality_status]; StopChecker escalates exactly when that key
    holds "pass". *)
Definition quality_checker : agent :=
  LeafAgent "QualityChecker" (fun _ _ => ([mk_event "QualityChecker" "fail" [("quality_status", "fail")] false ""], None)).
Definition stop_checker : agent :=
  LeafAgent "StopChecker"
    (fun _ st => ([mk_event "StopChecker" ""
                     [] (match st !! "quality_status"%string with
                         | Some v => String.eqb v "pass"
                         | None => false
                         end) ""], None)).

(** multi-agent/main.go: step1 writes [data], step2 reads it. *)
Definition step1 : agent :=
  LeafAgent "Step1" (fun _ _ => ([mk_event "Step1" "result" [("data", "result")] false ""], None)).
Definition step2 : agent :=
  LeafAgent "Step2" (fun _ st => match st !! "data"%string with
                                 | Some v => ([mk_event "Step2" v [] false ""], None)
                                 | None => ([], Some "StateError"%string)
                                 end).

(** customer_support_agent.go: checkAndTransfer hands over to support_agent. *)
Definition transfer_event : event := mk_event "main_agent" "" [] false "support_agent".
Definition main_agent : agent := LeafAgent "main_agent" (fun _ _ => ([transfer_event], None)).
Definition support_agent : agent :=
  LeafAgent "support_agent" (fun input _ => ([mk_event "support_agent" input [] false ""], None)).
Definition support_root : agent := Sequential "root" [main_agent; support_agent].

(** parallel/main.go: two researchers writing their own keys. *)
Definition researcher1 : agent :=
  LeafAgent "r1" (fun _ _ => ([mk_event "r1" "a" [("k", "1")] false ""; mk_event "r1" "b" [] false ""], None)).
Definition researcher2 : agent :=
  LeafAgent "r2" (fun _ _ => ([mk_event "r2" "c" [("k", "2")] false ""], None)).

(** context/main.go: a tool storing the user ID under a temp: key. *)
Definition profile_agent : agent :=
  LeafAgent "profile" (fun _ _ => ([mk_event "profile" "ok" [("temp:current_user_id", "u1"); ("name", "Ada")] false ""], None)).
Definition demo_session : session :=
  {| appName := "app"; userID := "u1"; sessionID := "s1"; events := []; sstate := ∅ |}.

(** part_012: the ticket agent calls its long-running tool on the first
    user message and answers afterwards. *)
Definition ticket_model (h : list LongRunning.content) : LongRunning.model_out :=
  if Nat.eqb (length h) 1 then LongRunning.CallTool "create_ticket_long_running" "high"
  else LongRunning.Say "done".

Definition ticket_s0 : LongRunning.agent_state :=
  {| LongRunning.history := []; LongRunning.pending := []; LongRunning.next_id := 0;
     LongRunning.started := []; LongRunning.model_calls := 0 |}.

End Scenarios.

(** ** Part 7: the examples' own helpers, tools and event loops

    Embedded from the Go sources of the examples.  Library services the
    code calls into (artifact stores) are parameters, with the contract a
    theorem needs stated as its hypothesis; the session state of a tool or
    callback context is a map, whose [Set] is an insert. *)

(** Go strings are byte strings. *)
Module GoStrings.

Definition is_ascii (s : string) : bool :=
  forallb (fun c => Nat.ltb (Ascii.nat_of_ascii c) 128) (list_ascii_of_string s).

(** strings.ToLower on ASCII input, Go's ASCII path: 'A'..'Z' become
    'a'..'z', every other byte is kept.  (Non-ASCII input goes through
    unicode.ToLower in Go; the theorems below assume ASCII input.) *)
Definition lower_byte (c : Ascii.ascii) : Ascii.ascii :=
  let n := Ascii.nat_of_ascii c in
  if Nat.leb 65 n && Nat.leb n 90 then Ascii.ascii_of_nat (n + 32) else c.

Fixpoint ToLower (s : string) : string :=
  match s with
  | EmptyString => EmptyString
  | String c s' => String (lower_byte c) (ToLower s')
  end.

(** strings.Contains(s, substr) *)
Definition Contains (s substr : string) : bool := LlmTurn.contains substr s.

End GoStrings.

(** A Go [int] (64 bits) and the dynamically typed values of a State. *)
Module GoValue.

(** Two's-complement wrap-around of Go's 64-bit [int] arithmetic. *)
Definition wrap_int (z : Z) : Z := (Z.modulo (z + 2 ^ 63) (2 ^ 64) - 2 ^ 63)%Z.

Definition int_range (z : Z) : Prop := (- 2 ^ 63 <= z < 2 ^ 63)%Z.

(** The [any] values the examples store in State. *)
Inductive any :=
| AInt (z : Z)
| AString (s : string).

End GoValue.

(** What [range r.Run(...)] yields: an event, or an error. *)
Module GoRunner.
Import FinalResponse.

Inductive stream_item :=
| RunEvent (ev : Event)
| RunError (err : string).

End GoRunner.

(** src/unnamed/part_010: the toolset tools and the final-response loop. *)
Module Toolset.
Import FinalResponse GoRunner GoValue.

(** func addNumbers(ctx tool.Context, args addNumbersArgs) addNumbersResult *)
Definition addNumbers (st : gmap string any) (a b : Z) : gmap string any * Z :=
  let result := wrap_int (a + b) in
  (<["last_math_result" := AInt result]> st, result).

(** func subtractNumbers(ctx tool.Context, args subtractNumbersArgs) subtractNumbersResult *)
Definition subtractNumbers (a b : Z) : Z := wrap_int (a - b).

(** func textParts(c *genai.Content) (ret []string) *)
Definition textParts (c : option Content) : list string :=
  match c with
  | None => []
  | Some c => List.filter (fun t => negb (String.eqb t "")) (map Text (Parts c))
  end.

(** The body of main's event loop (lines 183-193): skip errors; for a
    final event print the first text part.  [None] is the nil-pointer
    panic of [event.LLMResponse.Content] when [LLMResponse] is nil;
    otherwise the text printed, if any. *)
Definition main_step (it : stream_item) : option (option string) :=
  match it with
  | RunError _ => Some None
  | RunEvent ev =>
      if isFinalResponse ev then
        match LLMResponse_ ev with
        | None => None
        | Some r =>
            match textParts (Content_ r) with
            | t :: _ => Some (Some t)
            | [] => Some None
            end
        end
      else Some None
  end.

(** The whole loop: the responses printed, or [None] on a panic. *)
Fixpoint main_loop (items : list stream_item) : option (list string) :=
  match items with
  | [] => Some []
  | it :: rest =>
      match main_step it with
      | None => None
      | Some o =>
          match main_loop rest with
          | None => None
          | Some ts => Some (match o with Some t => t :: ts | None => ts end)
          end
      end
  end.

End Toolset.

(** tools/overview/weather_sentiment/weather_sentiment.go *)
Module Weather.
Import GoStrings.
Local Open Scope string_scope.

Record getWeatherReportResult := { Status : string; Report : string; ErrorMessage : string }.

(** func getWeatherReport(ctx tool.Context, args getWeatherReportArgs) getWeatherReportResult *)
Definition getWeatherReport (city : string) : getWeatherReportResult :=
  let l := ToLower city in
  if String.eqb l "london" then
    {| Status := "success";
       Report := "The current weather in London is cloudy with a temperature of 18 degrees Celsius and a chance of rain.";
       ErrorMessage := "" |}
  else if String.eqb l "paris" then
    {| Status := "success";
       Report := "The weather in Paris is sunny with a temperature of 25 degrees Celsius.";
       ErrorMessage := "" |}
  else
    {| Status := "error"; Report := "";
       ErrorMessage := "Weather information for '" ++ city ++ "' is not available." |}.

(** [Confidence] is a float64 constant; it is kept as the rational it is written as. *)
Record analyzeSentimentResult := { Sentiment : string; Confidence : Q }.

(** func analyzeSentiment(ctx tool.Context, args analyzeSentimentArgs) analyzeSentimentResult *)
Definition analyzeSentiment (text : string) : analyzeSentimentResult :=
  let lowerText := ToLower text in
  if Contains lowerText "good" || Contains lowerText "sunny" then
    {| Sentiment := "positive"; Confidence := Qmake 8 10 |}
  else if Contains lowerText "rain" || Contains lowerText "bad" then
    {| Sentiment := "negative"; Confidence := Qmake 7 10 |}
  else {| Sentiment := "neutral"; Confidence := Qmake 6 10 |}.

End Weather.

(** tools/overview/customer_support_agent/customer_support_agent.go *)
Module CustomerSupport.
Import FinalResponse GoRunner GoStrings.
Local Open Scope string_scope.

Record checkAndTransferResult := { Status : string; Message : string }.

(** func checkAndTransfer: the tool's actions before and after, and its result. *)
Definition checkAndTransfer (actions : EventActions) (query : string)
    : EventActions * checkAndTransferResult :=
  if Contains (ToLower query) "urgent" then
    ({| SkipSummarization := SkipSummarization actions; Escalate := Escalate actions;
        TransferToAgent := "support_agent" |},
     {| Status := "transferring"; Message := "Transferring to the support agent..." |})
  else
    (actions, {| Status := "processed";
                 Message := "Processed query: '" ++ query ++ "'. No further action needed." |}).

(** main (lines 137-147): [transferTo] after ranging over one Run's
    stream; errors are logged and skipped.  [None] is the nil-pointer
    panic of [event.LLMResponse.Content] when [LLMResponse] is nil; the
    response printing does not touch [transferTo]. *)
Fixpoint transfer_loop (transferTo : string) (items : list stream_item) : option string :=
  match items with
  | [] => Some transferTo
  | RunError _ :: rest => transfer_loop transferTo rest
  | RunEvent ev :: rest =>
      let transferTo' :=
        if String.eqb (TransferToAgent (Actions ev)) "" then transferTo
        else TransferToAgent (Actions ev) in
      match LLMResponse_ ev with
      | None => None
      | Some _ => transfer_loop transferTo' rest
      end
  end.

(** main (lines 149-166): whether the loop runs again with support_agent
    (otherwise it breaks). *)
Definition redispatch (items : list stream_item) : option bool :=
  match transfer_loop "" items with
  | None => None
  | Some transferTo => Some (String.eqb transferTo "support_agent")
  end.

(** The non-empty [TransferToAgent] values of the stream's events, in order. *)
Definition transfers (items : list stream_item) : list string :=
  flat_map (fun it => match it with
                      | RunEvent ev =>
                          if String.eqb (TransferToAgent (Actions ev)) "" then []
                          else [TransferToAgent (Actions ev)]
                      | RunError _ => []
                      end) items.

(** Every event of the stream has a non-nil [LLMResponse]. *)
Definition all_responded (items : list stream_item) : bool :=
  forallb (fun it => match it with
                     | RunEvent ev => match LLMResponse_ ev with Some _ => true | None => false end
                     | RunError _ => true
                     end) items.

End CustomerSupport.

(** src/unnamed/part_012: runTurn and processDocument. *)
Module TicketClient.
Import FinalResponse GoRunner.

(** One part of an event: store the ID of a create_ticket_long_running call. *)
Definition capture_part (captured : option string) (p : Part) : option string :=
  match FunctionCall_ p with
  | Some fc => if String.eqb (FC_Name fc) "create_ticket_long_running" then Some (FC_ID fc) else captured
  | None => captured
  end.

(** The event loop of runTurn (lines 276-295).  [None] is the nil-pointer
    panic of [event.LLMResponse.Content.Parts] (a nil [LLMResponse] or a
    nil [Content]); otherwise the stored ID, if any. *)
Fixpoint runTurn_loop (captured : option string) (items : list stream_item) : option (option string) :=
  match items with
  | [] => Some captured
  | RunError _ :: rest => runTurn_loop captured rest
  | RunEvent ev :: rest =>
      match LLMResponse_ ev with
      | None => None
      | Some r =>
          match Content_ r with
          | None => None
          | Some c => runTurn_loop (fold_left capture_part (Parts c) captured) rest
          end
      end
  end.

(** func runTurn(...) string *)
Definition runTurn (items : list stream_item) : option string :=
  match runTurn_loop None items with
  | None => None
  | Some (Some id) => Some id
  | Some None => Some ""%string
  end.

(** The IDs of the create_ticket_long_running calls among some parts. *)
Definition part_ticket_ids (ps : list Part) : list string :=
  flat_map (fun p => match FunctionCall_ p with
                     | Some fc => if String.eqb (FC_Name fc) "create_ticket_long_running" then [FC_ID fc] else []
                     | None => []
                     end) ps.

(** The IDs of all create_ticket_long_running calls of a stream, in order. *)
Definition ticket_call_ids (items : list stream_item) : list string :=
  flat_map (fun it =>
              match it with
              | RunEvent ev =>
                  match LLMResponse_ ev with
                  | Some r => part_ticket_ids (resp_parts r)
                  | None => []
                  end
              | RunError _ => []
              end) items.

(** Every event of the stream has a non-nil [LLMResponse] with a non-nil [Content]. *)
Definition all_have_content (items : list stream_item) : bool :=
  forallb (fun it => match it with
                     | RunEvent ev =>
                         match LLMResponse_ ev with
                         | Some r => match Content_ r with Some _ => true | None => false end
                         | None => false
                         end
                     | RunError _ => true
                     end) items.

End TicketClient.

Module DocAnalysis.
Local Open Scope string_scope.

Inductive result (A : Type) :=
| Ok (a : A)
| Failed (err : string).
Arguments Ok {A} a.
Arguments Failed {A} err.

Record processDocumentResult := { Status : string; Message : string; AnalysisArtifact : string }.

(** toolCtx.Artifacts(): List, Load (whose response part may be nil) and
    Save of a text part, over the artifact store [S]. *)
Record Artifacts (S : Type) := {
  List_ : S -> result (list string);
  Load : S -> string -> result (option string);
  Save : S -> string -> string -> result S
}.
Arguments List_ {S} a s.
Arguments Load {S} a s name.
Arguments Save {S} a s name part.

Definition analysisResult (name query : string) : string :=
  "Analysis of '" ++ name ++ "' regarding '" ++ query
  ++ "': The document appears to be about planetary science, discussing the composition of Mars' atmosphere. [Placeholder Analysis Result]".

(** func processDocument(toolCtx tool.Context, args processDocumentArgs) processDocumentResult
    (src/unnamed/part_012, lines 50-98) *)
Definition processDocument {S} (arts : Artifacts S) (s : S) (DocumentName AnalysisQuery : string)
    : S * processDocumentResult :=
  match List_ arts s with
  | Failed e =>
      (s, {| Status := "error"; Message := "failed to list artifacts: " ++ e; AnalysisArtifact := "" |})
  | Ok _ =>
      match Load arts s DocumentName with
      | Failed _ =>
          (s, {| Status := "error"; Message := "Document '" ++ DocumentName ++ "' not found.";
                 AnalysisArtifact := "" |})
      | Ok _ =>
          let newArtifactName := "analysis_" ++ DocumentName in
          match Save arts s newArtifactName (analysisResult DocumentName AnalysisQuery) with
          | Failed e =>
              (s, {| Status := "error"; Message := "failed to save artifact: " ++ e; AnalysisArtifact := "" |})
          | Ok s' => (s', {| Status := "success"; Message := ""; AnalysisArtifact := newArtifactName |})
          end
      end
  end.

(** An in-memory artifact store: file name to text. *)
Definition memory_artifacts : Artifacts (gmap string string) :=
  {| List_ := fun m => Ok (map fst (map_to_list m));
     Load := fun m n => match m !! n with Some t => Ok (Some t) | None => Failed "artifact not found" end;
     Save := fun m n p => Ok (<[n := p]> m) |}.

(** What [processDocument] relies on from a store: a Save is read back
    by a Load of its name and leaves the other names as they were. *)
Definition save_load_contract {S} (arts : Artifacts S) : Prop :=
  forall s n p s', Save arts s n p = Ok s' ->
    Load arts s' n = Ok (Some p) /\ (forall m, m <> n -> Load arts s' m = Load arts s m).

End DocAnalysis.

(** context/main.go: a callback and two artifact helpers. *)
Module ContextTools.
Import GoValue.
Local Open Scope string_scope.

(** func myBeforeModelCb (lines 119-133): the state after the callback, or
    [None] for the panic of [callCount.(int)] on a non-int value.  It
    always lets the model call proceed. *)
Definition myBeforeModelCb (st : gmap string any) : option (gmap string any) :=
  let callCount := match st !! "model_calls" with Some v => v | None => AInt 0 end in
  match callCount with
  | AInt n =>
      let newCount := wrap_int (n + 1) in
      Some (<["model_calls" := AInt newCount]> st)
  | AString _ => None
  end.

(** The callback before each of [k] model calls. *)
Fixpoint before_model_calls (k : nat) (st : gmap string any) : option (gmap string any) :=
  match k with
  | 0 => Some st
  | S k' => match myBeforeModelCb st with Some st' => before_model_calls k' st' | None => None end
  end.

Inductive result (A : Type) :=
| Ok (a : A)
| Failed (err : string).
Arguments Ok {A} a.
Arguments Failed {A} err.

(** ctx.Artifacts(): Save of a part and Load of its text. *)
Record Artifacts (S : Type) := {
  Save : S -> string -> string -> result S;
  Load : S -> string -> result string
}.
Arguments Save {S} a s name part.
Arguments Load {S} a s name.

(** func saveDocumentReference(ctx agent.CallbackContext, filePath string) error
    (lines 472-485): the state and store after it, and its error. *)
Definition saveDocumentReference {S} (arts : Artifacts S) (st : gmap string any) (s : S)
    (filePath : string) : gmap string any * S * option string :=
  match Save arts s "document_to_summarize.txt" filePath with
  | Failed e => (st, s, Some e)
  | Ok s' => (<["temp:doc_artifact_name" := AString "document_to_summarize.txt"]> st, s', None)
  end.

(** func summarizeDocumentTool(tc tool.Context) (map[string]string, error)
    (lines 490-517): [None] is the panic of [artifactName.(string)]. *)
Definition summarizeDocumentTool {S} (arts : Artifacts S) (st : gmap string any) (s : S)
    : option (result (list (string * string))) :=
  match st !! "temp:doc_artifact_name" with
  | None => Some (Ok [("error", "Document artifact name not found in state.")])
  | Some (AInt _) => None
  | Some (AString artifactName) =>
      match Load arts s artifactName with
      | Failed e => Some (Failed e)
      | Ok text =>
          if String.eqb text "" then
            Some (Ok [("error", "Could not load artifact or artifact has no text path.")])
          else
            let filePath := text in
            Some (Ok [("summary", "Summary of content from " ++ filePath)])
      end
  end.

Definition memory_artifacts : Artifacts (gmap string string) :=
  {| Save := fun m n p => Ok (<[n := p]> m);
     Load := fun m n => match m !! n with Some t => Ok t | None => Failed "artifact not found" end |}.

End ContextTools.

(** agents/workflow-agents/loop/main.go: the event loop of runAgent. *)
Module LoopClient.
Import FinalResponse GoRunner.

Inductive line :=
| InitialDraft (author text : string)
| Critique (iteration : nat) (author text : string)
| Refinement (iteration : nat) (author text : string)
| Terminated.

Inductive outcome :=
| Finished           (* "--- Pipeline Finished ---", nil error *)
| Error (e : string) (* the error returned: fmt.Errorf("error during agent execution: %v", err) *)
| Panic.             (* nil event.Content *)

(** strings.TrimSpace on ASCII text. *)
Definition is_space (c : Ascii.ascii) : bool :=
  match Ascii.nat_of_ascii c with 9 | 10 | 11 | 12 | 13 | 32 => true | _ => false end.

Fixpoint drop_spaces (l : list Ascii.ascii) : list Ascii.ascii :=
  match l with [] => [] | c :: l' => if is_space c then drop_spaces l' else l end.

Definition TrimSpace (s : string) : string :=
  string_of_list_ascii (rev (drop_spaces (rev (drop_spaces (list_ascii_of_string s))))).

Definition outputText (c : Content) : string :=
  TrimSpace (fold_left (fun acc p => (acc ++ Text p)%string) (Parts c) ""%string).

(** The loop (lines 186-209), from [loopIteration]: the lines printed,
    and how it ends. *)
Fixpoint print_events (loopIteration : nat) (items : list stream_item) : list line * outcome :=
  match items with
  | [] => ([], Finished)
  | RunError e :: _ => ([], Error ("error during agent execution: " ++ e)%string)
  | RunEvent ev :: rest =>
      match option_bind _ _ Content_ (LLMResponse_ ev) with
      | None => ([], Panic)
      | Some c =>
          let out := outputText c in
          let '(it, ls) :=
            if String.eqb (Author ev) "InitialWriterAgent" then (loopIteration, [InitialDraft (Author ev) out])
            else if String.eqb (Author ev) "CriticAgent" then
              (S loopIteration, [Critique (S loopIteration) (Author ev) out])
            else if String.eqb (Author ev) "RefinerAgent" then
              (loopIteration, if Escalate (Actions ev) then [] else [Refinement loopIteration (Author ev) out])
            else (loopIteration, []) in
          let ls := (ls ++ if Escalate (Actions ev) then [Terminated] else [])%list in
          let '(more, o) := print_events it rest in
          ((ls ++ more)%list, o)
      end
  end.

(** An item the loop body gets past: an event with a non-nil content. *)
Definition item_ok (it : stream_item) : bool :=
  match it with
  | RunEvent ev => match option_bind _ _ Content_ (LLMResponse_ ev) with Some _ => true | None => false end
  | RunError _ => false
  end.

(** The iteration numbers of the critiques printed. *)
Definition critique_numbers (ls : list line) : list nat :=
  flat_map (fun l => match l with Critique n _ _ => [n] | _ => [] end) ls.

Definition critic_count (items : list stream_item) : nat :=
  length (List.filter (fun it => match it with
                                 | RunEvent ev => String.eqb (Author ev) "CriticAgent"
                                 | RunError _ => false
                                 end) items).

Definition terminations (ls : list line) : nat :=
  length (List.filter (fun l => match l with Terminated => true | _ => false end) ls).

Definition escalations (items : list stream_item) : nat :=
  length (List.filter (fun it => match it with
                                 | RunEvent ev => Escalate (Actions ev)
                                 | RunError _ => false
                                 end) items).

End LoopClient.

(** Sample inputs for the examples' loops and tools. *)
Module Samples.
Import FinalResponse GoRunner.
Local Open Scope string_scope.

Definition text_part (t : string) : Part :=
  {| Text := t; FunctionCall_ := None; FunctionResponse_ := None; CodeExecutionResult_ := None |}.

Definition no_actions : EventActions :=
  {| SkipSummarization := false; Escalate := false; TransferToAgent := "" |}.

Definition escalate_actions : EventActions :=
  {| SkipSummarization := false; Escalate := true; TransferToAgent := "" |}.

Definition model_event (author : string) (acts : EventActions) (parts : list Part) : Event :=
  {| Author := author; Actions := acts; LongRunningToolIDs := [];
     LLMResponse_ := Some {| Content_ := Some {| Parts := parts; Role := "model" |}; Partial := false |} |}.

(** The stream of loop/main.go's pipeline: a draft, two critiques, a
    refinement, and a refiner that calls exitLoop. *)
Definition refinement_run : list stream_item :=
  [RunEvent (model_event "InitialWriterAgent" no_actions [text_part " A cat sat. "]);
   RunEvent (model_event "CriticAgent" no_actions [text_part "Add detail."]);
   RunEvent (model_event "RefinerAgent" no_actions [text_part "A grey cat sat."]);
   RunEvent (model_event "CriticAgent" no_actions [text_part "No major issues found."]);
   RunEvent (model_event "RefinerAgent" escalate_actions [])].

End Samples.

(** * Proofs *)

Module FinalResponseFacts.
Import FinalResponse.

Lemma existsb_false_forall {A} (f : A -> bool) (l : list A) :
  existsb f l = false <-> (forall x, In x l -> f x = false).
Proof.
  induction l as [|y l IH]; simpl.
  - split; [intros _ x []|reflexivity].
  - rewrite orb_false_iff, IH. split.
    + intros [Hy Hl] x [<-|Hx]; auto.
    + intros H. split; auto.
Qed.

Lemma is_some_false {A} (o : option A) :
  match o with Some _ => true | None => false end = false <-> o = None.
Proof. destruct o; split; congruence. Qed.

Lemma hasFunctionCalls_false r :
  hasFunctionCalls (Some r) = false <-> (forall p, In p (resp_parts r) -> FunctionCall_ p = None).
Proof.
  unfold hasFunctionCalls, resp_parts. destruct (Content_ r) as [c|].
  - rewrite existsb_false_forall. split; intros H p Hp; apply is_some_false, H, Hp.
  - split; [intros _ p []|reflexivity].
Qed.

Lemma hasFunctionResponses_false r :
  hasFunctionResponses (Some r) = false <-> (forall p, In p (resp_parts r) -> FunctionResponse_ p = None).
Proof.
  unfold hasFunctionResponses, resp_parts. destruct (Content_ r) as [c|].
  - rewrite existsb_false_forall. split; intros H p Hp; apply is_some_false, H, Hp.
  - split; [intros _ p []|reflexivity].
Qed.

Lemma hasTrailing_false r :
  hasTrailingCodeExecutionResult (Some r) = false
  <-> (forall p, last_opt (resp_parts r) = Some p -> CodeExecutionResult_ p = None).
Proof.
  unfold hasTrailingCodeExecutionResult, resp_parts, last_opt.
  destruct (Content_ r) as [c|]; [destruct (Parts c) as [|p0 ps]|].
  - split; [intros _ p H; discriminate H|reflexivity].
  - rewrite is_some_false. split.
    + intros H p Hp. injection Hp as <-. exact H.
    + intros H. apply H. reflexivity.
  - split; [intros _ p H; discriminate H|reflexivity].
Qed.

(** C10: an event is classified as the agent's final response iff its
    actions set skipSummarization, or its longRunningToolIDs is
    non-empty, or its LLM response is absent, or that response has no
    function-call part, no function-response part, is not partial and
    does not end in a code-execution result. *)
Theorem isFinalResponse_iff (ev : Event) :
  isFinalResponse ev = true <-> final_response_described ev.
Proof.
  unfold isFinalResponse, final_response_described.
  destruct (SkipSummarization (Actions ev)) eqn:Hs; cbn [orb].
  { split; [intros _; left; reflexivity|reflexivity]. }
  destruct (LongRunningToolIDs ev) as [|id ids] eqn:Hl; cbn [orb length Nat.ltb Nat.leb].
  2:{ split; [intros _; right; left; discriminate|reflexivity]. }
  destruct (LLMResponse_ ev) as [r|] eqn:Hr.
  2:{ split; [intros _; right; right; left; reflexivity|reflexivity]. }
  rewrite !andb_true_iff, !negb_true_iff, hasFunctionCalls_false,
    hasFunctionResponses_false, hasTrailing_false.
  split.
  - intros [[[H1 H2] H3] H4]. right; right; right. exists r. auto.
  - intros [H|[H|[H|H]]]; [discriminate|congruence|discriminate|].
    destruct H as (r' & Hr' & H1 & H2 & H3 & H4). injection Hr' as <-.
    tauto.
Qed.

End FinalResponseFacts.

Module OrchestrationFacts.
Import Orchestration.

(** *** Shape of forwarded streams *)

Lemma cut_no_stop (t : list item) : has_stop t = false -> cut t = t.
Proof.
  induction t as [|x t IH]; simpl; [reflexivity|].
  intros H. apply orb_false_iff in H as [Hx Ht]. rewrite Hx, IH; auto.
Qed.

Lemma cut_prefix (t : list item) : cut t `prefix_of` t.
Proof.
  induction t as [|x t IH]; simpl.
  - exists []. reflexivity.
  - destruct (is_stop x).
    + exists t. reflexivity.
    + destruct IH as [k Hk]. exists k. rewrite Hk at 1. reflexivity.
Qed.

Lemma cut_in (t : list item) x : In x (cut t) -> In x t.
Proof.
  intros Hx. destruct (cut_prefix t) as [k Hk]. rewrite Hk. apply in_or_app. auto.
Qed.

Lemma cut_stops_last (t : list item) : stops_last (cut t).
Proof.
  unfold stops_last. induction t as [|y t IH]; simpl; intros pre x post Heq Hx.
  - destruct pre; discriminate.
  - destruct (is_stop y) eqn:Hy.
    + destruct pre as [|p pre]; simpl in Heq; injection Heq as -> Heq; [exact (eq_sym Heq)|].
      destruct pre; discriminate.
    + destruct pre as [|p pre]; simpl in Heq; injection Heq as -> Heq.
      * congruence.
      * eapply IH; eauto.
Qed.

Lemma stops_last_app (a b : list item) :
  has_stop a = false -> stops_last b -> stops_last (a ++ b).
Proof.
  unfold stops_last. induction a as [|y a IH]; simpl; intros Ha Hb pre x post Heq Hx.
  - eapply Hb; eauto.
  - apply orb_false_iff in Ha as [Hy Ha].
    destruct pre as [|p pre]; simpl in Heq; injection Heq as -> Heq.
    + congruence.
    + eapply IH; eauto.
Qed.

Lemma stops_last_cons x (b : list item) :
  is_stop x = false -> stops_last b -> stops_last (x :: b).
Proof. intros Hx Hb. apply (stops_last_app [x]); simpl; [rewrite Hx; reflexivity|exact Hb]. Qed.

Lemma run_children_stops_last r (l : list agent) st : stops_last (run_children r l st).
Proof.
  revert st. induction l as [|c l IH]; intros st; simpl.
  - intros pre x post H. destruct pre; discriminate.
  - destruct (has_stop (cut (r c st))) eqn:Hs.
    + apply cut_stops_last.
    + apply stops_last_app; auto.
Qed.

Lemma loop_iters_stops_last r subs k st : stops_last (loop_iters r subs k st).
Proof.
  revert st. induction k as [|k IH]; intros st; simpl.
  - intros pre x post H. destruct pre; discriminate.
  - destruct (has_stop (run_children r subs st)) eqn:Hs.
    + apply run_children_stops_last.
    + apply stops_last_app; auto.
Qed.

Lemma loop_unbounded_stops_last r subs k st : stops_last (loop_unbounded r subs k st).
Proof.
  revert st. induction k as [|k IH]; intros st; simpl.
  - intros pre x post H. destruct pre as [|p pre]; simpl in H; injection H as Hx H.
    + subst. reflexivity.
    + destruct pre; discriminate.
  - destruct (has_stop (run_children r subs st)) eqn:Hs.
    + apply run_children_stops_last.
    + apply stops_last_app; auto.
Qed.

Lemma cut_tagged_stops_last (t : list (nat * item)) : stops_last (map snd (cut_tagged t)).
Proof.
  unfold stops_last. induction t as [|[i y] t IH]; simpl; intros pre x post Heq Hx.
  - destruct pre; discriminate.
  - destruct (is_stop y) eqn:Hy; simpl in Heq.
    + destruct pre as [|p pre]; simpl in Heq; injection Heq as -> Heq; [exact (eq_sym Heq)|].
      destruct pre; discriminate.
    + destruct pre as [|p pre]; simpl in Heq; injection Heq as -> Heq.
      * congruence.
      * eapply IH; eauto.
Qed.

Lemma workflow_stops_last fuel input (a : agent) st :
  is_workflow a = true -> stops_last (run fuel input a st).
Proof.
  destruct a as [nm body|nm subs|nm subs sc|nm subs [m|]]; simpl; intros H;
    try discriminate; apply stops_last_cons; try reflexivity.
  - apply run_children_stops_last.
  - apply cut_tagged_stops_last.
  - apply loop_iters_stops_last.
  - apply loop_unbounded_stops_last.
Qed.

(** C2: in the stream of a workflow agent (Sequential, Parallel, Loop),
    once an Event with [escalate = true] has been forwarded nothing
    follows it: no further child, iteration or Event of that run. *)
Theorem escalation_ends_workflow fuel input (a : agent) st pre e post :
  is_workflow a = true ->
  run fuel input a st = pre ++ Emitted e :: post ->
  escalate e = true ->
  post = [].
Proof.
  intros Hw Hrun He. eapply (workflow_stops_last fuel input a st Hw); [exact Hrun|].
  simpl. rewrite He. reflexivity.
Qed.

Lemma escalation_ends_workflow_witness :
  is_workflow Scenarios.refinement_loop = true
  /\ run 0 "" Scenarios.refinement_loop ∅
     = [Started "RefinementLoop" ∅; Started "writer" ∅; Emitted Scenarios.draft_event;
        Started "checker" (<["draft" := "v1"]> ∅)] ++ Emitted Scenarios.done_event :: []
  /\ escalate Scenarios.done_event = true
  /\ ([] : list item) = [].
Proof.
  assert (H : run 0 "" Scenarios.refinement_loop ∅
     = [Started "RefinementLoop" ∅; Started "writer" ∅; Emitted Scenarios.draft_event;
        Started "checker" (<["draft" := "v1"]> ∅)] ++ Emitted Scenarios.done_event :: [])
    by (vm_compute; reflexivity).
  split; [reflexivity|]. split; [exact H|]. split; [reflexivity|].
  exact (escalation_ends_workflow 0 "" Scenarios.refinement_loop ∅ _ Scenarios.done_event [] eq_refl H eq_refl).
Defined.

End OrchestrationFacts.

Module StateFacts.
Import Orchestration.

(** *** Committing deltas: last write wins, in Event order *)

Lemma apply_delta_lookup (st : gmap string string) d k :
  apply_delta st d !! k = match delta_last k d with Some v => Some v | None => st !! k end.
Proof.
  unfold apply_delta. revert st. induction d as [|[k' v'] d IH]; intros st; simpl; [reflexivity|].
  rewrite IH. destruct (delta_last k d); [reflexivity|].
  destruct (String.eqb_spec k' k) as [->|Hne].
  - apply lookup_insert_eq.
  - apply lookup_insert_ne. exact Hne.
Qed.

Lemma commit_lookup (st : gmap string string) t k :
  commit st t !! k = match last_write k t with Some v => Some v | None => st !! k end.
Proof.
  unfold commit. revert st. induction t as [|it t IH]; intros st; simpl; [reflexivity|].
  rewrite IH. destruct (last_write k t); [reflexivity|].
  destruct it; try reflexivity. apply apply_delta_lookup.
Qed.

Lemma commit_app (st : gmap string string) a b : commit st (a ++ b) = commit (commit st a) b.
Proof. unfold commit. apply fold_left_app. Qed.

Lemma commit_last_write (st : gmap string string) t k v :
  last_write k t = Some v -> commit st t !! k = Some v.
Proof. intros H. rewrite commit_lookup, H. reflexivity. Qed.

End StateFacts.

Module SequentialFacts.
Import Orchestration StateFacts OrchestrationFacts.

Lemma run_head fuel input (a : agent) st :
  exists rest, run fuel input a st = Started (agent_name a) st :: rest.
Proof. destruct a as [n b|n subs|n subs sc|n subs [m|]]; simpl; eexists; reflexivity. Qed.

Lemma run_children_head fuel input (c : agent) (l : list agent) st :
  exists rest, run_children (fun c s => run fuel input c s) (c :: l) st = Started (agent_name c) st :: rest.
Proof.
  destruct (run_head fuel input c st) as [X HX].
  change (run_children (fun c s => run fuel input c s) (c :: l) st)
    with (let t := cut (run fuel input c st) in
          if has_stop t then t else t ++ run_children (fun c s => run fuel input c s) l (commit st t)).
  cbv zeta. rewrite HX. simpl.
  destruct (has_stop (cut X)); eexists; reflexivity.
Qed.

Lemma run_children_app r (pre post : list agent) st :
  has_stop (run_children r pre st) = false ->
  run_children r (pre ++ post) st
  = run_children r pre st ++ run_children r post (commit st (run_children r pre st)).
Proof.
  revert st. induction pre as [|c pre IH]; intros st; simpl; [reflexivity|].
  destruct (has_stop (cut (r c st))) eqn:Hs.
  - intros H. rewrite H in Hs. discriminate.
  - intros H. unfold has_stop in H. rewrite existsb_app in H. apply orb_false_iff in H as [_ H].
    rewrite IH by exact H. rewrite commit_app. apply app_assoc.
Qed.

(** C3: in a Sequential agent, for adjacent children [c1] and [c2]: when
    the traversal reaches [c2] (nothing before it stopped), [c1]'s whole
    stream is forwarded before [c2]'s first item, [c2] starts on the state
    with [c1]'s deltas committed, and every key [c1] wrote holds there the
    value of [c1]'s last write to it. *)
Theorem sequential_handoff fuel input nm (pre : list agent) c1 c2 post st :
  let r := fun c s => run fuel input c s in
  let tp := run_children r pre st in
  let t1 := run fuel input c1 (commit st tp) in
  let s2 := commit (commit st tp) t1 in
  has_stop tp = false ->
  has_stop t1 = false ->
  run fuel input (Sequential nm (pre ++ c1 :: c2 :: post)) st
    = Started nm st :: tp ++ t1 ++ run_children r (c2 :: post) s2
  /\ (exists rest, run_children r (c2 :: post) s2 = Started (agent_name c2) s2 :: rest)
  /\ (forall k v, last_write k t1 = Some v -> s2 !! k = Some v).
Proof.
  intros r tp t1 s2 Hp H1. split; [|split].
  - assert (Hc : cut (r c1 (commit st tp)) = t1) by (apply cut_no_stop; exact H1).
    change (run fuel input (Sequential nm (pre ++ c1 :: c2 :: post)) st)
      with (Started nm st :: run_children r (pre ++ c1 :: c2 :: post) st).
    rewrite run_children_app by exact Hp. fold tp.
    change (run_children r (c1 :: c2 :: post) (commit st tp))
      with (let t := cut (r c1 (commit st tp)) in
            if has_stop t then t else t ++ run_children r (c2 :: post) (commit (commit st tp) t)).
    cbv zeta. rewrite Hc, H1. reflexivity.
  - apply run_children_head.
  - intros k v Hk. apply commit_last_write. exact Hk.
Qed.

Lemma sequential_handoff_witness :
  has_stop (run_children (fun c s => run 0 "" c s) [] ∅) = false
  /\ has_stop (run 0 "" Scenarios.step1 (commit ∅ [])) = false
  /\ commit (commit ∅ []) (run 0 "" Scenarios.step1 (commit ∅ [])) !! "data"%string = Some "result"%string.
Proof.
  assert (H1 : has_stop (run_children (fun c s => run 0 "" c s) [] ∅) = false) by reflexivity.
  assert (H2 : has_stop (run 0 "" Scenarios.step1 (commit ∅ [])) = false) by reflexivity.
  split; [exact H1|]. split; [exact H2|].
  destruct (sequential_handoff 0 "" "MyPipeline" [] Scenarios.step1 Scenarios.step2 [] ∅ H1 H2)
    as (_ & _ & Hk).
  apply Hk. reflexivity.
Defined.

End SequentialFacts.

Module ParallelFacts.
Import Orchestration StateFacts.

Lemma flush_other (qs : list (list item)) j i :
  i < j -> List.filter (from_child i) (flush j qs) = [].
Proof.
  revert j. induction qs as [|q qs IH]; intros j Hij; simpl; [reflexivity|].
  rewrite List.filter_app, IH by lia. rewrite app_nil_r.
  induction q as [|x q IHq]; simpl; [reflexivity|].
  unfold from_child at 1. simpl. destruct (Nat.eqb_spec j i); [lia|]. exact IHq.
Qed.

Lemma map_snd_filter_own (q : list item) i :
  map snd (List.filter (from_child i) (map (fun x => (i, x)) q)) = q.
Proof.
  induction q as [|x q IH]; simpl; [reflexivity|].
  unfold from_child at 1. simpl. rewrite Nat.eqb_refl. simpl. f_equal. exact IH.
Qed.

Lemma map_snd_filter_not_own (q : list item) i j :
  j <> i -> List.filter (from_child i) (map (fun x => (j, x)) q) = [].
Proof.
  intros Hne. induction q as [|x q IH]; simpl; [reflexivity|].
  unfold from_child at 1. simpl. destruct (Nat.eqb_spec j i); [congruence|]. exact IH.
Qed.

Lemma flush_proj (qs : list (list item)) j i q :
  qs !! (i - j) = Some q -> j <= i -> map snd (List.filter (from_child i) (flush j qs)) = q.
Proof.
  revert j. induction qs as [|q0 qs IH]; intros j Hq Hji; [discriminate|].
  simpl. rewrite List.filter_app, map_app.
  destruct (Nat.eq_dec i j) as [->|Hne].
  - rewrite Nat.sub_diag in Hq. simpl in Hq. injection Hq as ->.
    rewrite map_snd_filter_own, flush_other by lia. apply app_nil_r.
  - rewrite map_snd_filter_not_own by congruence. simpl.
    apply IH; [|lia]. replace (i - j) with (S (i - S j)) in Hq by lia. exact Hq.
Qed.

(** Per-child projection of the merge: a child's items arrive in its own order. *)
Lemma merge_proj (sched : list nat) (qs : list (list item)) i q :
  qs !! i = Some q -> map snd (List.filter (from_child i) (merge sched qs)) = q.
Proof.
  revert qs q. induction sched as [|j sched IH]; intros qs q Hq; simpl.
  - apply (flush_proj qs 0 i q); [rewrite Nat.sub_0_r; exact Hq|lia].
  - destruct (qs !! j) as [[|x xs]|] eqn:Hj; try (apply IH; exact Hq).
    unfold from_child at 1. simpl. destruct (Nat.eqb_spec j i) as [->|Hne].
    + rewrite Hj in Hq. injection Hq as <-. simpl. f_equal. apply IH.
      unfold set_nth. apply list_lookup_insert_eq. apply lookup_lt_is_Some. rewrite Hj. eauto.
    + apply IH. unfold set_nth. rewrite list_lookup_insert_ne by congruence. exact Hq.
Qed.

Lemma cut_tagged_prefix (t : list (nat * item)) : cut_tagged t `prefix_of` t.
Proof.
  induction t as [|x t IH]; simpl.
  - exists []. reflexivity.
  - destruct (is_stop (snd x)).
    + exists t. reflexivity.
    + destruct IH as [k Hk]. exists k. rewrite Hk at 1. reflexivity.
Qed.

(** C9: in a Parallel agent the forwarded stream is the arrival-order
    merge of the children's streams (cut at the first stop); each child's
    own items appear in it in the child's own order (a prefix of that
    child's stream, the whole of it when the merge is not cut); and the
    state after the Parallel agent holds, for each key, the value of the
    last write in arrival order. *)
Theorem parallel_order_and_commits fuel input nm (subs : list agent) sched st :
  let qs := map (fun c => cut (run fuel input c st)) subs in
  let tagged := cut_tagged (merge sched qs) in
  run fuel input (Parallel nm subs sched) st = Started nm st :: map snd tagged
  /\ (forall i q, qs !! i = Some q ->
        map snd (List.filter (from_child i) (merge sched qs)) = q
        /\ map snd (List.filter (from_child i) tagged) `prefix_of` q)
  /\ (forall k, commit st (run fuel input (Parallel nm subs sched) st) !! k
                = match last_write k (map snd tagged) with Some v => Some v | None => st !! k end).
Proof.
  intros qs tagged. split; [reflexivity|split].
  - intros i q Hq. split; [apply merge_proj; exact Hq|].
    rewrite <- (merge_proj sched qs i q Hq).
    destruct (cut_tagged_prefix (merge sched qs)) as [k Hk].
    fold tagged in Hk. rewrite Hk, List.filter_app, map_app. eexists. reflexivity.
  - intros k. change (run fuel input (Parallel nm subs sched) st) with (Started nm st :: map snd tagged).
    rewrite commit_lookup. simpl. destruct (last_write k (map snd tagged)); reflexivity.
Qed.

Lemma parallel_order_and_commits_witness :
  map snd (List.filter (from_child 0)
    (merge [1; 0; 1; 0] (map (fun c => cut (run 0 "" c ∅)) [Scenarios.researcher1; Scenarios.researcher2])))
  = cut (run 0 "" Scenarios.researcher1 ∅).
Proof.
  destruct (parallel_order_and_commits 0 "" "ParallelResearcher"
              [Scenarios.researcher1; Scenarios.researcher2] [1; 0; 1; 0] ∅) as (_ & Hc & _).
  exact (proj1 (Hc 0 _ eq_refl)).
Defined.

End ParallelFacts.

Module TransferFacts.
Import Orchestration SequentialFacts.

Lemma last_opt_snoc {A} (l : list A) (x : A) : FinalResponse.last_opt (l ++ [x]) = Some x.
Proof.
  unfold FinalResponse.last_opt. destruct (l ++ [x]) as [|y ys] eqn:H.
  - destruct l; discriminate.
  - rewrite <- H. f_equal. apply last_last.
Qed.

Lemma find_agent_spec nm (root b : agent) :
  find_agent nm root = Some b -> agent_name b = nm /\ In b (subtrees root).
Proof.
  unfold find_agent. intros H. apply find_some in H as [Hin Hn].
  apply String.eqb_eq in Hn. auto.
Qed.

Lemma NoDup_map_same {A B} (f : A -> B) (l : list A) x y :
  List.NoDup (map f l) -> In x l -> In y l -> f x = f y -> x = y.
Proof.
  induction l as [|z l IH]; simpl; [tauto|].
  intros Hnd Hx Hy Hf. apply NoDup_cons_iff in Hnd as [Hz Hnd].
  destruct Hx as [<-|Hx], Hy as [<-|Hy]; auto.
  - exfalso. apply Hz. rewrite Hf. apply in_map. exact Hy.
  - exfalso. apply Hz. rewrite <- Hf. apply in_map. exact Hx.
Qed.

Lemma orchestrate_head fuel input hops (root b : agent) st :
  exists rest, orchestrate fuel input hops root b st = cut (run fuel input b st) ++ rest.
Proof.
  destruct hops as [|h]; simpl;
  destruct (FinalResponse.last_opt (cut (run fuel input b st))) as [[n s|e|err|]|];
  try (exists []; rewrite app_nil_r; reflexivity);
  destruct (String.eqb (transferToAgent e) "");
  try (exists []; rewrite app_nil_r; reflexivity);
  destruct (find_agent (transferToAgent e) root); eexists; reflexivity.
Qed.

(** C4: when the current agent's forwarded stream ends with an Event
    whose [transferToAgent] names [B] and [B] resolves in the tree, the
    current agent's turn ends there and the Orchestrator runs next the
    agent named [B] (the only one of that name when names are unique),
    with the same invocation input, on the state committed so far. *)
Theorem transfer_redispatch fuel input h (root cur b : agent) st pre e :
  cut (run fuel input cur st) = pre ++ [Emitted e] ->
  transferToAgent e <> "" ->
  find_agent (transferToAgent e) root = Some b ->
  let st' := commit st (pre ++ [Emitted e]) in
  orchestrate fuel input (S h) root cur st
    = pre ++ Emitted e :: orchestrate fuel input h root b st'
  /\ agent_name b = transferToAgent e /\ In b (subtrees root)
  /\ (exists rest, orchestrate fuel input h root b st'
        = Started (transferToAgent e) st' :: cut (tail (run fuel input b st')) ++ rest)
  /\ (List.NoDup (all_names root) ->
        forall x, In x (subtrees root) -> agent_name x = transferToAgent e -> x = b).
Proof.
  intros Hcut Htr Hfind st'.
  destruct (find_agent_spec _ _ _ Hfind) as [Hname Hin].
  split; [|split; [exact Hname|split; [exact Hin|split]]].
  - simpl. rewrite Hcut, last_opt_snoc.
    destruct (String.eqb_spec (transferToAgent e) "") as [E|_]; [contradiction|].
    rewrite Hfind, <- app_assoc. reflexivity.
  - destruct (orchestrate_head fuel input h root b st') as [rest Hr].
    destruct (run_head fuel input b st') as [X HX].
    exists rest. rewrite Hr, HX. simpl. rewrite Hname. reflexivity.
  - intros Hnd x Hx Hxn. apply (NoDup_map_same agent_name (subtrees root)); auto.
    congruence.
Qed.

Lemma transfer_redispatch_witness :
  cut (run 0 "help" Scenarios.main_agent ∅) = [Started "main_agent" ∅] ++ [Emitted Scenarios.transfer_event]
  /\ transferToAgent Scenarios.transfer_event <> ""%string
  /\ find_agent (transferToAgent Scenarios.transfer_event) Scenarios.support_root = Some Scenarios.support_agent
  /\ agent_name Scenarios.support_agent = transferToAgent Scenarios.transfer_event.
Proof.
  assert (H1 : cut (run 0 "help" Scenarios.main_agent ∅)
               = [Started "main_agent" ∅] ++ [Emitted Scenarios.transfer_event]) by reflexivity.
  assert (H2 : transferToAgent Scenarios.transfer_event <> ""%string) by discriminate.
  assert (H3 : find_agent (transferToAgent Scenarios.transfer_event) Scenarios.support_root
               = Some Scenarios.support_agent) by reflexivity.
  split; [exact H1|]. split; [exact H2|]. split; [exact H3|].
  exact (proj1 (proj2 (transfer_redispatch 0 "help" 0 Scenarios.support_root Scenarios.main_agent
                         Scenarios.support_agent ∅ _ _ H1 H2 H3))).
Defined.

End TransferFacts.

Module SessionFacts.
Import Orchestration StateFacts.

Lemma delta_last_durable_temp k d :
  is_temp k = true -> delta_last k (durable_delta d) = None.
Proof.
  intros Hk. induction d as [|[k' v'] d IH]; simpl; [reflexivity|].
  destruct (negb (is_temp k')) eqn:Ht; simpl; rewrite IH; [|reflexivity].
  destruct (String.eqb_spec k' k) as [->|_]; [|reflexivity].
  rewrite Hk in Ht. discriminate.
Qed.

Lemma durable_delta_no_temp d kv : In kv (durable_delta d) -> is_temp (fst kv) = false.
Proof.
  unfold durable_delta. intros H. apply filter_In in H as [_ H]. apply negb_true_iff, H.
Qed.

Lemma append_items_temp (s : session) t k :
  is_temp k = true -> sstate (append_items s t) !! k = sstate s !! k.
Proof.
  intros Hk. unfold append_items. revert s. induction t as [|it t IH]; intros s; simpl; [reflexivity|].
  rewrite IH. destruct it; try reflexivity. simpl.
  rewrite apply_delta_lookup, delta_last_durable_temp by exact Hk. reflexivity.
Qed.

Lemma append_items_events (s : session) t :
  exists added, events (append_items s t) = events s ++ added
    /\ (forall e kv, In e added -> In kv (stateDelta e) -> is_temp (fst kv) = false).
Proof.
  unfold append_items. revert s. induction t as [|it t IH]; intros s; simpl.
  - exists []. rewrite app_nil_r. split; [reflexivity|intros e kv []].
  - destruct it as [n sn|e|err|];
      try solve [destruct (IH s) as [added [Hn Hd]]; exists added; auto].
    destruct (IH (appendEvent s e)) as [added [Hn Hd]].
    exists (durable e :: added). rewrite Hn. simpl. rewrite <- app_assoc. split; [reflexivity|].
    intros e' kv [<-|He'] Hkv; [|eapply Hd; eauto].
    apply (durable_delta_no_temp (stateDelta e)). exact Hkv.
Qed.

(** C6: for a [temp:] key [k] and any Run against a session, whatever
    the Run's outcome: a value written to [k] is what the in-flight state
    holds for [k] after that write; no Event appended to the session has
    a [temp:] key in its delta; after the Run the persisted state holds
    for [k] exactly what it held before the Run (the value written during
    the Run is purged), so the next Run of the session, which starts from
    that state, does not see it; a session whose persisted state has no
    [temp:] key keeps having none. *)
Theorem temp_keys_scoped fuel hops input (root : agent) (s : session) k :
  is_temp k = true ->
  let s' := fst (run_session fuel hops input root s) in
  let t := snd (run_session fuel hops input root s) in
  (forall pre post v, t = pre ++ post -> last_write k pre = Some v ->
                      commit (sstate s) pre !! k = Some v)
  /\ (exists added, events s' = events s ++ added
       /\ (forall e kv, In e added -> In kv (stateDelta e) -> is_temp (fst kv) = false))
  /\ sstate s' !! k = sstate s !! k
  /\ (temp_free (sstate s) -> sstate s' !! k = None /\ temp_free (sstate s')).
Proof.
  intros Hk s' t. split; [|split; [|split]].
  - intros pre post v _ Hw. apply commit_last_write. exact Hw.
  - apply append_items_events.
  - apply append_items_temp. exact Hk.
  - intros Hf. unfold s'. simpl. split.
    + rewrite append_items_temp by exact Hk. apply Hf. exact Hk.
    + intros k2 Hk2. rewrite append_items_temp by exact Hk2. apply Hf. exact Hk2.
Qed.

Lemma temp_keys_scoped_witness :
  is_temp "temp:current_user_id" = true
  /\ sstate (fst (run_session 0 0 "" Scenarios.profile_agent Scenarios.demo_session))
       !! "temp:current_user_id"%string = None.
Proof.
  assert (Ht : is_temp "temp:current_user_id" = true) by reflexivity.
  split; [exact Ht|].
  destruct (temp_keys_scoped 0 0 "" Scenarios.profile_agent Scenarios.demo_session _ Ht)
    as (_ & _ & H & _).
  rewrite H. reflexivity.
Defined.

End SessionFacts.

Module LoopFacts.
Import Orchestration OrchestrationFacts SequentialFacts Scenarios.

(** *** Streams without a stopping item *)

Lemma has_stop_cut (t : list item) : has_stop (cut t) = has_stop t.
Proof.
  induction t as [|x t IH]; [reflexivity|]. simpl.
  destruct (is_stop x) eqn:Hx; simpl; rewrite Hx; [reflexivity|exact IH].
Qed.

Lemma has_stop_app (t1 t2 : list item) : has_stop (t1 ++ t2) = has_stop t1 || has_stop t2.
Proof. apply existsb_app. Qed.

Lemma cut_app_no_stop (t1 t2 : list item) : has_stop t1 = false -> cut (t1 ++ t2) = t1 ++ cut t2.
Proof.
  induction t1 as [|x t1 IH]; [reflexivity|]. simpl. intros H.
  apply orb_false_iff in H as [Hx Ht]. rewrite Hx, IH by exact Ht. reflexivity.
Qed.

(** The items of a stream without a stopping item: no escalation, no
    transfer, no error and no observation horizon. *)
Lemma no_stop_items (t : list item) :
  has_stop t = false
  <-> (forall e, In (Emitted e) t -> escalate e = false)
      /\ (forall e, In (Emitted e) t -> transferToAgent e = ""%string)
      /\ (forall err, ~ In (Failed err) t)
      /\ ~ In Horizon t.
Proof.
  unfold has_stop. rewrite <- Bool.not_true_iff_false, existsb_exists. split.
  - intros H. split; [|split; [|split]].
    + intros e He. destruct (escalate e) eqn:Hesc; [|reflexivity].
      exfalso. apply H. exists (Emitted e). simpl. rewrite Hesc. auto.
    + intros e He. destruct (String.eqb_spec (transferToAgent e) "") as [Ht|Ht]; [exact Ht|].
      exfalso. apply H. exists (Emitted e). simpl. split; [exact He|].
      apply orb_true_iff. right. apply negb_true_iff, String.eqb_neq. exact Ht.
    + intros err Herr. apply H. exists (Failed err). auto.
    + intros Hh. apply H. exists Horizon. auto.
  - intros (H1 & H2 & H3 & H4) (x & Hx & Hs). destruct x as [n sn|e|err|]; simpl in Hs.
    + discriminate.
    + rewrite (H1 e Hx), (H2 e Hx) in Hs. discriminate.
    + exact (H3 err Hx).
    + exact (H4 Hx).
Qed.

(** A traversal of a child list that does not stop runs every child once,
    in order, each on some state. *)
Lemma run_children_shape r (l : list agent) st :
  has_stop (run_children r l st) = false ->
  exists ss : list (gmap string string), length ss = length l
    /\ run_children r l st = concat (map (fun cs => r (fst cs) (snd cs)) (combine l ss)).
Proof.
  revert st. induction l as [|c l IH]; intros st; simpl.
  - intros _. exists []. split; reflexivity.
  - destruct (has_stop (cut (r c st))) eqn:Hc; [intros H; rewrite H in Hc; discriminate|].
    rewrite has_stop_app, Hc. simpl. intros H.
    destruct (IH _ H) as (ss & Hlen & Heq).
    exists (st :: ss). split; [simpl; rewrite Hlen; reflexivity|].
    simpl. rewrite Heq. rewrite has_stop_cut in Hc. rewrite (cut_no_stop _ Hc). reflexivity.
Qed.

Lemma loop_iters_shape r (subs : list agent) k st :
  has_stop (loop_iters r subs k st) = false ->
  exists passes : list (list (gmap string string)),
    length passes = k /\ Forall (fun ss => length ss = length subs) passes
    /\ loop_iters r subs k st
       = concat (map (fun ss => concat (map (fun cs => r (fst cs) (snd cs)) (combine subs ss))) passes).
Proof.
  revert st. induction k as [|k IH]; intros st; simpl.
  - intros _. exists []. split; [reflexivity|]. split; [constructor|reflexivity].
  - destruct (has_stop (run_children r subs st)) eqn:Hc; [intros H; rewrite H in Hc; discriminate|].
    rewrite has_stop_app, Hc. simpl. intros H.
    destruct (IH _ H) as (passes & Hlen & Hall & Heq).
    destruct (run_children_shape r subs st Hc) as (ss & Hss & Hrc).
    exists (ss :: passes). split; [simpl; rewrite Hlen; reflexivity|].
    split; [constructor; assumption|]. simpl. rewrite Heq, Hrc. reflexivity.
Qed.

(** *** A Loop child that never ends *)

Definition poll_event : event := mk_event "poll" "pending" [("status", "pending")] false "".

Lemma poll_pass fuel input st :
  run_children (fun c s => run fuel input c s) [poll] st = [Started "poll" st; Emitted poll_event].
Proof. reflexivity. Qed.

Lemma endless_iterations fuel input k st :
  exists V, loop_unbounded (fun c s => run fuel input c s) [poll] k st = V ++ [Horizon]
    /\ has_stop V = false /\ count_started "inner" V = 0
    /\ (forall e, In (Emitted e) V -> escalate e = false).
Proof.
  revert st. induction k as [|k IH]; intros st.
  - exists []. repeat split. intros e [].
  - cbn [loop_unbounded]. rewrite poll_pass.
    destruct (IH (commit st [Started "poll" st; Emitted poll_event])) as (V & HV & Hs & Hc & He).
    exists (Started "poll" st :: Emitted poll_event :: V). cbn [has_stop existsb is_stop]. rewrite HV.
    split; [reflexivity|]. split; [exact Hs|]. split.
    + unfold count_started in *. simpl. exact Hc.
    + intros e [H|[H|H]]; [discriminate|injection H as <-; reflexivity|auto].
Qed.

(** Claim C1 (counterexample): no child ever sets [escalate = true], yet a
    Loop with [maxIterations = 2] does not run its child list twice and
    end normally: (a) a child whose model call fails aborts the Loop with
    the error after one pass; (b) a child that transfers ends the Loop
    after one pass; (c) a child that is a Loop without maxIterations never
    ends, so the outer Loop never finishes its first pass (at every
    observation horizon). *)
Lemma loop_no_escalation_counterexample :
  ((forall st e, In (Emitted e) (run 0 "" failing_child st) -> escalate e = false)
   /\ run 0 "" (Loop "L" [failing_child] (Some 2)) ∅
      = [Started "L" ∅; Started "c" ∅; Failed "ModelError"])
  /\ ((forall st e, In (Emitted e) (run 0 "" transferring_child st) -> escalate e = false)
      /\ run 0 "" (Loop "L" [transferring_child] (Some 2)) ∅
         = [Started "L" ∅; Started "c" ∅; Emitted (mk_event "c" "" [] false "support_agent")])
  /\ ((forall fuel st e, In (Emitted e) (run fuel "" endless_child st) -> escalate e = false)
      /\ forall fuel,
           In Horizon (run fuel "" (Loop "L" [endless_child] (Some 2)) ∅)
           /\ count_started "inner" (run fuel "" (Loop "L" [endless_child] (Some 2)) ∅) = 1).
Proof.
  split; [|split].
  - split; [|reflexivity]. intros st e H. simpl in H. destruct H as [H|[H|[]]]; discriminate.
  - split; [|reflexivity]. intros st e H. simpl in H.
    destruct H as [H|[H|[]]]; [discriminate|injection H as <-; reflexivity].
  - split.
    + intros fuel st e H. cbn [run endless_child] in H.
      destruct (endless_iterations fuel "" fuel st) as (V & HV & _ & _ & He).
      rewrite HV in H. destruct H as [H|H]; [discriminate|].
      apply in_app_or in H as [H|[H|[]]]; [exact (He e H)|discriminate].
    + intros fuel.
      destruct (endless_iterations fuel "" fuel ∅) as (V & HV & Hs & Hc & _).
      assert (Hrun : run fuel "" endless_child ∅ = Started "inner" ∅ :: V ++ [Horizon])
        by (cbn [run endless_child]; rewrite HV; reflexivity).
      assert (Hcut : cut (run fuel "" endless_child ∅) = Started "inner" ∅ :: V ++ [Horizon]).
      { rewrite Hrun. change (cut ((Started "inner" ∅ :: V) ++ [Horizon]) = (Started "inner" ∅ :: V) ++ [Horizon]).
        rewrite cut_app_no_stop by exact Hs. reflexivity. }
      assert (Hstop : has_stop (Started "inner" ∅ :: V ++ [Horizon]) = true).
      { cbn [has_stop existsb is_stop]. rewrite existsb_app. simpl. apply orb_true_r. }
      assert (Hfull : run fuel "" (Loop "L" [endless_child] (Some 2)) ∅
                      = Started "L" ∅ :: Started "inner" ∅ :: V ++ [Horizon]).
      { change (run fuel "" (Loop "L" [endless_child] (Some 2)) ∅)
          with (Started "L" ∅ :: loop_iters (fun c s => run fuel "" c s) [endless_child] 2 ∅).
        cbn [loop_iters run_children]. rewrite Hcut, Hstop. rewrite Hstop. reflexivity. }
      rewrite Hfull. split.
      * right. right. apply in_or_app. right. left. reflexivity.
      * unfold count_started in *. cbn [List.filter]. simpl.
        rewrite List.filter_app, length_app, Hc. reflexivity.
Qed.

(** Claim C1 (amended): for a Loop with [maxIterations = N], if in this
    run no Event sets [escalate] or [transferToAgent], no child ends in an
    error and every child's run ends (no observation horizon is reached),
    then the Loop's stream is its start followed by exactly N passes over
    its child list, each pass running every child once in order; nothing
    else follows, so the Loop ends normally. *)
Theorem loop_runs_exactly_N fuel input nm (subs : list agent) (N : nat) st
    (Hesc : forall e, In (Emitted e) (run fuel input (Loop nm subs (Some N)) st) -> escalate e = false)
    (Htr : forall e, In (Emitted e) (run fuel input (Loop nm subs (Some N)) st) -> transferToAgent e = ""%string)
    (Herr : forall err, ~ In (Failed err) (run fuel input (Loop nm subs (Some N)) st))
    (Hend : ~ In Horizon (run fuel input (Loop nm subs (Some N)) st)) :
  exists passes : list (list (gmap string string)),
    length passes = N /\ Forall (fun ss => length ss = length subs) passes
    /\ run fuel input (Loop nm subs (Some N)) st
       = Started nm st
         :: concat (map (fun ss => concat (map (fun cs => run fuel input (fst cs) (snd cs)) (combine subs ss)))
                        passes).
Proof.
  assert (Hs : has_stop (run fuel input (Loop nm subs (Some N)) st) = false)
    by (apply no_stop_items; auto).
  change (run fuel input (Loop nm subs (Some N)) st)
    with (Started nm st :: loop_iters (fun c s => run fuel input c s) subs N st) in Hs |- *.
  cbn [has_stop existsb is_stop orb] in Hs.
  destruct (loop_iters_shape _ subs N st Hs) as (passes & Hlen & Hall & Heq).
  exists passes. split; [exact Hlen|]. split; [exact Hall|]. rewrite Heq. reflexivity.
Qed.

(** The code-refinement loop of multi-agent/main.go: StopChecker would
    escalate on a state where [quality_status] is "pass", but in this run
    QualityChecker writes "fail", so the Loop makes all 5 passes. *)
Lemma loop_runs_exactly_N_witness :
  (exists e, In (Emitted e) (run 0 "" stop_checker {["quality_status" := "pass"]}) /\ escalate e = true)
  /\ exists passes : list (list (gmap string string)),
       length passes = 5 /\ Forall (fun ss => length ss = 2) passes
       /\ run 0 "" (Loop "CodeRefinementLoop" [quality_checker; stop_checker] (Some 5)) ∅
          = Started "CodeRefinementLoop" ∅
            :: concat (map (fun ss => concat (map (fun cs => run 0 "" (fst cs) (snd cs))
                                                  (combine [quality_checker; stop_checker] ss)))
                           passes).
Proof.
  split.
  - exists (mk_event "StopChecker" "" [] true ""). split; [|reflexivity].
    right. left. reflexivity.
  - assert (Hs : has_stop (run 0 "" (Loop "CodeRefinementLoop" [quality_checker; stop_checker] (Some 5)) ∅)
                 = false) by reflexivity.
    apply no_stop_items in Hs as (H1 & H2 & H3 & H4).
    exact (loop_runs_exactly_N 0 "" "CodeRefinementLoop" [quality_checker; stop_checker] 5 ∅ H1 H2 H3 H4).
Defined.

End LoopFacts.

Module LlmTurnFacts.
Import LlmTurn.

Lemma run_interceptors_first (before : list BeforeModelCallback) req i cb r :
  (forall j cbj, j < i -> nth_error before j = Some cbj -> cbj req = NoOp) ->
  nth_error before i = Some cb -> cb req = Replace r ->
  run_interceptors before req = (Replace r, S i).
Proof.
  revert i. induction before as [|cb0 rest IH]; intros i Hpre Hi Hr; [destruct i; discriminate|].
  destruct i as [|i]; simpl in Hi |- *.
  - injection Hi as ->. rewrite Hr. reflexivity.
  - rewrite (Hpre 0 cb0 ltac:(lia) eq_refl).
    rewrite (IH i); [reflexivity| |exact Hi|exact Hr].
    intros j cbj Hj Hn. exact (Hpre (S j) cbj ltac:(lia) Hn).
Qed.

(** Claim C5: when the Before-Model callbacks before position [i] are
    no-ops and the one at [i] returns a replacement response [r], the turn
    calls the model zero times, invokes exactly the first [i + 1]
    callbacks (the rest are short-circuited) and its result is [r]. *)
Theorem before_model_short_circuit (before : list BeforeModelCallback)
    (after : list AfterModelCallback) model req i cb r :
  (forall j cbj, j < i -> nth_error before j = Some cbj -> cbj req = NoOp) ->
  nth_error before i = Some cb -> cb req = Replace r ->
  llm_turn before after model req
  = {| outcome := TurnResult r; model_calls := 0; before_invoked := S i |}.
Proof.
  intros Hpre Hi Hr. unfold llm_turn.
  rewrite (run_interceptors_first before req i cb r Hpre Hi Hr). reflexivity.
Qed.

Lemma before_model_short_circuit_witness :
  llm_turn [onBeforeModelGuardrail; fun _ => CbError "unreached"%string] []
    (fun _ => {| RespText := "model answer" |})
    {| Contents := ["Tell me about finance"%string] |}
  = {| outcome := TurnResult {| RespText := "I'm sorry, but I cannot discuss financial topics." |};
       model_calls := 0; before_invoked := 1 |}.
Proof.
  apply (before_model_short_circuit _ _ _ _ 0 onBeforeModelGuardrail).
  - intros j cbj Hj. lia.
  - reflexivity.
  - vm_compute. reflexivity.
Defined.

End LlmTurnFacts.

Module LongRunningFacts.
Import LongRunning Scenarios.

Section Flow.
Variable model : list content -> model_out.
Variable lr_name : string.
Variable lr_tool : string -> string.
Variable sync_tool : string -> option (string -> string).

(** The model/tool loop only opens and starts fresh IDs. *)
Lemma call_model_fresh fuel s s' evs :
  call_model model lr_name lr_tool sync_tool fuel s = (s', evs) ->
  next_id s <= next_id s'
  /\ (exists ps, pending s' = pending s ++ ps /\ forall j, In j ps -> next_id s <= j)
  /\ (exists ss, started s' = started s ++ ss /\ forall j, In j ss -> next_id s <= j).
Proof.
  revert s s' evs. induction fuel as [|f IH]; intros s s' evs H.
  - simpl in H. injection H as <- _. split; [lia|].
    split; exists []; rewrite app_nil_r; split; simpl; tauto.
  - simpl in H. destruct (model (history s)) as [t|nm args].
    + injection H as <- _. simpl. split; [lia|].
      split; exists []; rewrite app_nil_r; split; simpl; tauto.
    + destruct (String.eqb nm lr_name).
      * injection H as <- _. simpl. split; [lia|].
        split; exists [next_id s]; split; [reflexivity| |reflexivity|];
          intros j [<-|[]]; lia.
      * destruct (call_model model lr_name lr_tool sync_tool f _) as [s3 evs3] eqn:E.
        injection H as <- _. apply IH in E as (Hn & (ps & Hp & Hps) & (ss & Hs & Hss)).
        simpl in Hn, Hp, Hs, Hps, Hss. split; [lia|]. split.
        -- exists ps. split; [exact Hp|]. intros j Hj. specialize (Hps j Hj). lia.
        -- exists ss. split; [exact Hs|]. intros j Hj. specialize (Hss j Hj). lia.
Qed.

Lemma turns_continue fuel s id nm vs :
  In id (pending s) ->
  turns model lr_name lr_tool sync_tool fuel s (map (fun v => FnResponse id nm v true) vs)
  = (with_history s (history s ++ map (fun v => FnResponse id nm v true) vs), []).
Proof.
  revert s. induction vs as [|v vs IH]; intros s Hin.
  - simpl. rewrite app_nil_r. destruct s; reflexivity.
  - simpl. assert (Hp : existsb (Nat.eqb id) (pending s) = true).
    { apply existsb_exists. exists id. split; [exact Hin|apply Nat.eqb_refl]. }
    rewrite Hp. rewrite IH by exact Hin. simpl. rewrite <- app_assoc. reflexivity.
Qed.

Lemma count_occ_fresh (l : list nat) id :
  (forall j, In j l -> j <> id) -> count_occ Nat.eq_dec l id = 0.
Proof. intros H. apply count_occ_not_In. intros Hin. exact (H id Hin eq_refl). Qed.

(** Claim C7: a long-running call started on the user's turn.  The first
    turn runs the tool once and emits only the call and its placeholder
    result, both carrying the allocated ID; any number of responses with
    [willContinue = true] emit nothing, run nothing and keep the call
    open; the first response with [willContinue = false] closes the call
    and resumes the model on a history ending with that value; then the
    tool has been started for this ID exactly once and any further response
    for the ID is ignored. *)
Theorem long_running_flow f s0 u args nm vs vf s1 e1 s2 e2 s3 e3 :
  model (history s0 ++ [UserText u]) = CallTool lr_name args ->
  ids_fresh s0 ->
  turn model lr_name lr_tool sync_tool (S f) s0 (UserText u) = (s1, e1) ->
  turns model lr_name lr_tool sync_tool (S f) s1
    (map (fun v => FnResponse (next_id s0) nm v true) vs) = (s2, e2) ->
  turn model lr_name lr_tool sync_tool (S f) s2 (FnResponse (next_id s0) nm vf false) = (s3, e3) ->
  e1 = [{| ev_content := FnCall (next_id s0) lr_name args; ev_longRunningToolIDs := [next_id s0] |};
        {| ev_content := FnResponse (next_id s0) lr_name (lr_tool args) true;
           ev_longRunningToolIDs := [next_id s0] |}]
  /\ started s1 = started s0 ++ [next_id s0] /\ model_calls s1 = S (model_calls s0)
  /\ In (next_id s0) (pending s1)
  /\ e2 = [] /\ started s2 = started s1 /\ model_calls s2 = model_calls s1
  /\ In (next_id s0) (pending s2)
  /\ (s3, e3) = call_model model lr_name lr_tool sync_tool (S f)
                  {| history := history s2 ++ [FnResponse (next_id s0) nm vf false];
                     pending := List.filter (fun j => negb (Nat.eqb j (next_id s0))) (pending s2);
                     next_id := next_id s2; started := started s2; model_calls := model_calls s2 |}
  /\ count_occ Nat.eq_dec (started s3) (next_id s0) = 1
  /\ (forall nm' v' wc', turn model lr_name lr_tool sync_tool (S f) s3 (FnResponse (next_id s0) nm' v' wc')
                         = (s3, [])).
Proof.
  intros Hm [Hfp Hfs] H1 H2 H3.
  set (id := next_id s0) in *.
  unfold turn, call_model in H1. simpl in H1. rewrite Hm, String.eqb_refl in H1.
  fold id in H1. injection H1 as <- <-.
  assert (Hin1 : In id (pending s0 ++ [id])) by (apply in_or_app; right; left; reflexivity).
  rewrite turns_continue in H2 by exact Hin1. injection H2 as <- <-.
  cbn [with_history history pending started model_calls next_id] in H3 |- *.
  assert (Hp : existsb (Nat.eqb id) (pending s0 ++ [id]) = true).
  { apply existsb_exists. exists id. split; [exact Hin1|apply Nat.eqb_refl]. }
  unfold turn, with_history in H3. cbv beta iota in H3.
  cbn [history pending started model_calls next_id] in H3. rewrite Hp in H3.
  do 8 (split; [first [reflexivity|exact Hin1]|]).
  split; [symmetry; exact H3|].
  apply call_model_fresh in H3 as (Hn & (ps & Hps & Hps') & (ss & Hss & Hss')).
  cbn [next_id pending started] in Hn, Hps, Hps', Hss, Hss'. split.
  - rewrite Hss, !count_occ_app. simpl. destruct (Nat.eq_dec id id) as [_|C]; [|congruence].
    rewrite (count_occ_fresh (started s0)), (count_occ_fresh ss); [reflexivity| |].
    + intros j Hj. specialize (Hss' j Hj). lia.
    + intros j Hj. specialize (Hfs j Hj). unfold id. lia.
  - intros nm' v' wc'. unfold turn.
    assert (Hq : existsb (Nat.eqb id) (pending s3) = false).
    { apply not_true_iff_false. intros Hx. apply existsb_exists in Hx as (j & Hj & Hjq).
      apply Nat.eqb_eq in Hjq. subst j. rewrite Hps in Hj. apply in_app_or in Hj as [Hj|Hj].
      - apply filter_In in Hj as [_ Hj]. rewrite Nat.eqb_refl in Hj. discriminate.
      - specialize (Hps' id Hj). lia. }
    rewrite Hq. reflexivity.
Qed.

End Flow.

Lemma long_running_flow_witness :
  exists s1 e1 s2 e2 s3 e3,
    turn ticket_model "create_ticket_long_running" (fun _ => "started") (fun _ => None) 1 ticket_s0
      (UserText "Create a high urgency ticket for me.") = (s1, e1)
    /\ turns ticket_model "create_ticket_long_running" (fun _ => "started") (fun _ => None) 1 s1
         (map (fun v => FnResponse 0 "create_ticket_long_running" v true) ["pending"%string]) = (s2, e2)
    /\ turn ticket_model "create_ticket_long_running" (fun _ => "started") (fun _ => None) 1 s2
         (FnResponse 0 "create_ticket_long_running" "approved" false) = (s3, e3)
    /\ count_occ Nat.eq_dec (started s3) 0 = 1.
Proof.
  do 6 eexists. split; [reflexivity|]. split; [reflexivity|]. split; [reflexivity|].
  destruct (long_running_flow ticket_model "create_ticket_long_running" (fun _ => "started") (fun _ => None)
       0 ticket_s0 "Create a high urgency ticket for me." "high" "create_ticket_long_running"
       ["pending"%string] "approved" _ _ _ _ _ _ eq_refl (conj (fun j (H : In j []) => match H with end)
         (fun j (H : In j []) => match H with end)) eq_refl eq_refl eq_refl)
    as (_ & _ & _ & _ & _ & _ & _ & _ & _ & Hc & _).
  exact Hc.
Defined.

End LongRunningFacts.

Module TemplateFacts.
Import Template.

Lemma str_assoc (a b c : string) : ((a ++ b) ++ c)%string = (a ++ (b ++ c))%string.
Proof. induction a as [|x a IH]; [reflexivity|]. exact (f_equal (String x) IH). Qed.

Lemma str_nil_r (a : string) : (a ++ "")%string = a.
Proof. induction a as [|x a IH]; [reflexivity|]. exact (f_equal (String x) IH). Qed.

Lemma no_braces_cons c s :
  no_braces (String c s) = true ->
  Ascii.eqb c lbrace = false /\ Ascii.eqb c rbrace = false /\ no_braces s = true.
Proof.
  simpl. intros H. apply andb_prop in H as [H H3]. apply andb_prop in H as [H1 H2].
  apply negb_true_iff in H1, H2. auto.
Qed.

(** Text without braces is copied. *)
Lemma render_lit st s rest :
  no_braces s = true -> render_go st Normal (s ++ rest) = oapp s (render_go st Normal rest).
Proof.
  induction s as [|c s IH]; intros H.
  - change (EmptyString ++ rest)%string with rest. destruct (render_go st Normal rest); reflexivity.
  - apply no_braces_cons in H as (H1 & H2 & H3). simpl. rewrite H1, H2, IH by exact H3.
    destruct (render_go st Normal rest); reflexivity.
Qed.

(** A placeholder name is read up to its closing brace, then looked up. *)
Lemma render_key st k s rest :
  no_braces s = true ->
  render_go st (InKey k) (s ++ String rbrace rest)
  = match st !! (k ++ s)%string with Some v => oapp v (render_go st Normal rest) | None => None end.
Proof.
  revert k. induction s as [|c s IH]; intros k H.
  - simpl. rewrite str_nil_r. reflexivity.
  - apply no_braces_cons in H as (H1 & H2 & H3). simpl. rewrite H2, IH by exact H3.
    rewrite str_assoc. reflexivity.
Qed.

Lemma render_seg st g rest :
  seg_ok g = true ->
  render_go st Normal (seg_text g ++ rest)
  = match seg_render st g with Some a => oapp a (render_go st Normal rest) | None => None end.
Proof.
  destruct g as [s|k|s]; simpl; intros H.
  - apply render_lit, H.
  - rewrite str_assoc. simpl. destruct k as [|c k].
    + reflexivity.
    + apply no_braces_cons in H as (H1 & H2 & H3). simpl. rewrite H1, H2.
      change (String rbrace "" ++ rest)%string with (String rbrace rest).
      rewrite (render_key st (String c "") k rest H3). reflexivity.
  - rewrite !str_assoc. simpl. rewrite render_lit by exact H. simpl.
    change (EmptyString ++ rest)%string with rest.
    destruct (render_go st Normal rest) as [x|]; simpl; [|reflexivity].
    exact (f_equal (fun t => Some (String lbrace t)) (eq_sym (str_assoc s (String rbrace "") x))).
Qed.

(** Claim C8: a template made of literal text, placeholders [{k}] and
    escapes [{{s}}] (with no braces inside the pieces) renders to the
    concatenation of its pieces' renderings: each [{k}] becomes the State
    value of [k] (a missing key fails the rendering), each [{{s}}] becomes
    [{s}] with no lookup, and literal text is copied. *)
Theorem render_segments st (gs : list segment) :
  forallb seg_ok gs = true -> render st (segs_text gs) = segs_render st gs.
Proof.
  unfold render. induction gs as [|g gs IH]; intros H; [reflexivity|].
  simpl in H. apply andb_prop in H as [Hg Hgs]. simpl.
  rewrite render_seg by exact Hg. rewrite IH by exact Hgs.
  destruct (seg_render st g) as [a|]; [|reflexivity].
  destruct (segs_render st gs); reflexivity.
Qed.

Lemma render_segments_witness :
  forallb seg_ok [Lit "Hi "; Var "name"; Lit ", "; Esc "literal"] = true
  /\ render (<["name" := "Ada"]> ∅) (segs_text [Lit "Hi "; Var "name"; Lit ", "; Esc "literal"])
     = segs_render (<["name" := "Ada"]> ∅) [Lit "Hi "; Var "name"; Lit ", "; Esc "literal"].
Proof.
  split; [reflexivity|]. apply render_segments. reflexivity.
Defined.

End TemplateFacts.

(** ** Facts about the examples (Part 7) *)

Module GoStringsFacts.
Import GoStrings.

Lemma lower_byte_idem (c : ascii) : lower_byte (lower_byte c) = lower_byte c.
Proof. destruct c as [[] [] [] [] [] [] [] []]; vm_compute; reflexivity. Qed.

Lemma ToLower_idem (s : string) : ToLower (ToLower s) = ToLower s.
Proof. induction s as [|c s IH]; simpl; [reflexivity|]. rewrite lower_byte_idem, IH. reflexivity. Qed.

Lemma prefix_lower (a b : string) :
  String.prefix a b = true -> String.prefix (ToLower a) (ToLower b) = true.
Proof.
  revert b; induction a as [|x a IH]; intros [|y b]; simpl; try easy.
  destruct (Ascii.ascii_dec x y) as [->|]; [|discriminate].
  destruct (Ascii.ascii_dec (lower_byte y) (lower_byte y)); [|congruence]. apply IH.
Qed.

Lemma contains_lower (a b : string) :
  LlmTurn.contains a b = true -> LlmTurn.contains (ToLower a) (ToLower b) = true.
Proof.
  induction b as [|y b IH]; simpl.
  - intros H. apply (prefix_lower a ""). exact H.
  - intros H. apply orb_true_iff in H as [H|H].
    + apply orb_true_iff. left. apply (prefix_lower a (String y b)). exact H.
    + apply orb_true_iff. right. auto.
Qed.

End GoStringsFacts.

Module WeatherFacts.
Import GoStrings Weather GoStringsFacts.
Local Open Scope string_scope.

(** getWeatherReport (weather_sentiment.go): on ASCII input the status
    and report depend only on the lower-case city, the call succeeds
    exactly for "london" and "paris" in any case, and otherwise the
    error message quotes the city as the caller spelled it. *)
Theorem getWeatherReport_case_insensitive (city : string) (Hascii : is_ascii city = true) :
  Status (getWeatherReport city) = Status (getWeatherReport (ToLower city))
  /\ Report (getWeatherReport city) = Report (getWeatherReport (ToLower city))
  /\ (Status (getWeatherReport city) = "success" <-> ToLower city = "london" \/ ToLower city = "paris")
  /\ (Status (getWeatherReport city) <> "success" ->
      Status (getWeatherReport city) = "error" /\ Report (getWeatherReport city) = ""
      /\ ErrorMessage (getWeatherReport city) = "Weather information for '" ++ city ++ "' is not available.").
Proof.
  unfold getWeatherReport. rewrite ToLower_idem.
  destruct (String.eqb_spec (ToLower city) "london") as [->|Hl]; simpl.
  - split; [reflexivity|]. split; [reflexivity|]. split.
    + split; auto.
    + intros H; contradiction H; reflexivity.
  - destruct (String.eqb_spec (ToLower city) "paris") as [->|Hp]; simpl.
    + split; [reflexivity|]. split; [reflexivity|]. split.
      * split; auto.
      * intros H; contradiction H; reflexivity.
    + repeat split; try reflexivity.
      * discriminate.
      * intros [H|H]; contradiction.
Qed.

(** An unknown city: its error message. *)
Lemma getWeatherReport_case_insensitive_witness :
  is_ascii "Tokyo" = true
  /\ ErrorMessage (getWeatherReport "Tokyo") = "Weather information for 'Tokyo' is not available.".
Proof.
  split; [reflexivity|].
  destruct (getWeatherReport_case_insensitive "Tokyo" eq_refl) as (_ & _ & _ & H).
  apply H. vm_compute. discriminate.
Defined.

(** analyzeSentiment: an ASCII text containing "good" or "sunny" in any
    case is positive with confidence 0.8. *)
Theorem analyzeSentiment_positive_keyword (text u : string) (Hascii : is_ascii text = true)
    (Hin : LlmTurn.contains u text = true) (Hu : ToLower u = "good" \/ ToLower u = "sunny") :
  analyzeSentiment text = {| Sentiment := "positive"; Confidence := Qmake 8 10 |}.
Proof.
  unfold analyzeSentiment, Contains.
  apply contains_lower in Hin.
  destruct Hu as [Hu|Hu]; rewrite Hu in Hin; rewrite Hin; [reflexivity|].
  rewrite orb_true_r. reflexivity.
Qed.

(** Upper-case keywords. *)
Lemma analyzeSentiment_positive_keyword_witness :
  analyzeSentiment "A GOOD day, it is Sunny" = {| Sentiment := "positive"; Confidence := Qmake 8 10 |}.
Proof.
  apply (analyzeSentiment_positive_keyword _ "GOOD"); [reflexivity | reflexivity | left; reflexivity].
Defined.

(** analyzeSentiment: an ASCII text containing "rain" or "bad" in any
    case, and neither "good" nor "sunny" in any case, is negative with
    confidence 0.7. *)
Theorem analyzeSentiment_negative_keyword (text u : string) (Hascii : is_ascii text = true)
    (Hin : LlmTurn.contains u text = true) (Hu : ToLower u = "rain" \/ ToLower u = "bad")
    (Hpos : Contains (ToLower text) "good" = false /\ Contains (ToLower text) "sunny" = false) :
  analyzeSentiment text = {| Sentiment := "negative"; Confidence := Qmake 7 10 |}.
Proof.
  unfold analyzeSentiment. destruct Hpos as [Hg Hs]. rewrite Hg, Hs. cbn [orb].
  unfold Contains. apply contains_lower in Hin.
  destruct Hu as [Hu|Hu]; rewrite Hu in Hin; rewrite Hin; [reflexivity|].
  rewrite orb_true_r. reflexivity.
Qed.

(** A text with "RAIN" and no positive keyword. *)
Lemma analyzeSentiment_negative_keyword_witness :
  analyzeSentiment "Heavy RAIN all week" = {| Sentiment := "negative"; Confidence := Qmake 7 10 |}.
Proof.
  exact (analyzeSentiment_negative_keyword "Heavy RAIN all week" "RAIN" eq_refl eq_refl (or_introl eq_refl)
           (conj eq_refl eq_refl)).
Defined.

End WeatherFacts.

Module GoValueFacts.
Import GoValue.

Lemma wrap_int_range (z : Z) : int_range (wrap_int z).
Proof.
  unfold int_range, wrap_int.
  pose proof (Z.mod_pos_bound (z + 2 ^ 63) (2 ^ 64) ltac:(lia)). lia.
Qed.

Lemma wrap_int_id (z : Z) : int_range z -> wrap_int z = z.
Proof.
  unfold int_range, wrap_int. intros H.
  rewrite Z.mod_small by lia. lia.
Qed.

Lemma wrap_int_add_l (x y : Z) : wrap_int (wrap_int x + y) = wrap_int (x + y).
Proof.
  unfold wrap_int. f_equal.
  replace ((x + 2 ^ 63) mod 2 ^ 64 - 2 ^ 63 + y + 2 ^ 63)%Z with ((x + 2 ^ 63) mod 2 ^ 64 + y)%Z by lia.
  rewrite Zplus_mod_idemp_l. f_equal. lia.
Qed.

Lemma wrap_int_spec (z : Z) : exists q, wrap_int z = (z - 2 ^ 64 * q)%Z.
Proof.
  unfold wrap_int. exists ((z + 2 ^ 63) / 2 ^ 64)%Z.
  pose proof (Z.div_mod (z + 2 ^ 63) (2 ^ 64) ltac:(lia)). lia.
Qed.

End GoValueFacts.

Module ToolsetFacts.
Import FinalResponse GoRunner GoValue Toolset GoValueFacts.
Local Open Scope string_scope.

(** addNumbers (part_010): the tool stores its result under
    last_math_result and touches no other key; the result is a 64-bit
    int, equal to a+b exactly when a+b does not overflow, and otherwise
    off by 2^64. *)
Theorem addNumbers_result (st : gmap string any) (a b : Z)
    (Ha : int_range a) (Hb : int_range b) :
  let '(st', r) := addNumbers st a b in
  st' !! "last_math_result" = Some (AInt r)
  /\ (forall k, k <> "last_math_result" -> st' !! k = st !! k)
  /\ int_range r
  /\ (r = (a + b)%Z <-> int_range (a + b))
  /\ (r = (a + b)%Z \/ r = (a + b - 2 ^ 64)%Z \/ r = (a + b + 2 ^ 64)%Z).
Proof.
  unfold addNumbers.
  split; [apply lookup_insert_eq|]. split.
  { intros k Hk. apply lookup_insert_ne. congruence. }
  split; [apply wrap_int_range|]. split.
  - split.
    + intros H. rewrite <- H. apply wrap_int_range.
    + apply wrap_int_id.
  - pose proof (wrap_int_range (a + b)) as Hr. destruct (wrap_int_spec (a + b)) as [q Hq].
    unfold int_range in *. rewrite Hq in *.
    assert (q = 0 \/ q = 1 \/ q = -1)%Z as [->|[->| ->]] by lia; lia.
Qed.

(** The largest int plus one wraps to the smallest. *)
Lemma addNumbers_result_witness :
  int_range 9223372036854775807%Z /\ int_range 1%Z
  /\ snd (addNumbers ∅ 9223372036854775807%Z 1%Z) = (- 9223372036854775808)%Z.
Proof.
  assert (Ha : int_range 9223372036854775807%Z) by (unfold int_range; lia).
  assert (Hb : int_range 1%Z) by (unfold int_range; lia).
  split; [exact Ha|]. split; [exact Hb|].
  pose proof (addNumbers_result ∅ _ _ Ha Hb) as H. simpl in H.
  destruct H as (_ & _ & _ & _ & [H|[H|H]]); simpl; rewrite H; [| reflexivity |];
    exfalso; vm_compute in H; discriminate H.
Defined.

(** subtractNumbers undoes addNumbers for all 64-bit ints, overflow
    included. *)
Theorem add_then_subtract (st : gmap string any) (a b : Z)
    (Ha : int_range a) (Hb : int_range b) :
  subtractNumbers (snd (addNumbers st a b)) b = a.
Proof.
  unfold subtractNumbers, addNumbers; simpl.
  replace (wrap_int (a + b) - b)%Z with (wrap_int (a + b) + - b)%Z by lia.
  rewrite wrap_int_add_l. replace (a + b + - b)%Z with a by lia.
  apply wrap_int_id; exact Ha.
Qed.

(** Through an overflow. *)
Lemma add_then_subtract_witness :
  subtractNumbers (snd (addNumbers ∅ 9223372036854775807%Z 5%Z)) 5%Z = 9223372036854775807%Z.
Proof. apply add_then_subtract; unfold int_range; lia. Defined.

Lemma isFinalResponse_nil_response (ev : Event) :
  LLMResponse_ ev = None -> isFinalResponse ev = true.
Proof.
  intros H. unfold isFinalResponse. rewrite H.
  destruct (SkipSummarization (Actions ev) || _); reflexivity.
Qed.

Lemma main_step_none (it : stream_item) :
  main_step it = None <-> exists ev, it = RunEvent ev /\ LLMResponse_ ev = None.
Proof.
  destruct it as [ev|e]; simpl.
  - split.
    + destruct (isFinalResponse ev); [|discriminate].
      destruct (LLMResponse_ ev) as [r|] eqn:Hr; [|eauto].
      destruct (textParts (Content_ r)); discriminate.
    + intros (ev' & Hev & Hr). injection Hev as Hev. subst ev'.
      rewrite (isFinalResponse_nil_response ev Hr), Hr. reflexivity.
  - split; [discriminate|]. intros (ev & H & _). discriminate.
Qed.

(** main's event loop (part_010, weather_sentiment.go): it panics exactly
    when some event of the stream has a nil LLMResponse (such an event is
    always final); errors are skipped. *)
Theorem main_loop_panics (items : list stream_item) :
  main_loop items = None <-> exists ev, In (RunEvent ev) items /\ LLMResponse_ ev = None.
Proof.
  induction items as [|it rest IH]; simpl.
  - split; [discriminate|]. intros (ev & [] & _).
  - destruct (main_step it) as [o|] eqn:Hs.
    + destruct (main_loop rest) as [ts|] eqn:Hl.
      * split; [discriminate|].
        intros (ev & [Heq|Hin] & Hr).
        -- subst it.
           assert (main_step (RunEvent ev) = None) as Hn by (apply main_step_none; eauto). congruence.
        -- assert (Some ts = None) by (apply IH; eauto). discriminate.
      * split; [|reflexivity]. intros _.
        destruct (proj1 IH eq_refl) as (ev & Hin & Hr). eauto.
    + split; [|reflexivity]. intros _.
      destruct (proj1 (main_step_none it) Hs) as (ev & -> & Hr). eauto.
Qed.

Lemma textParts_nonempty (c : option Content) : Forall (fun t => t <> "") (textParts c).
Proof.
  destruct c as [c|]; simpl; [|constructor].
  apply List.Forall_forall. intros t Ht.
  apply List.filter_In in Ht as [_ Ht].
  destruct (String.eqb_spec t ""); [discriminate|assumption].
Qed.

(** main's event loop: every response it prints is non-empty, and it
    prints at most one response per item. *)
Theorem main_loop_prints (items : list stream_item) (ts : list string) :
  main_loop items = Some ts ->
  Forall (fun t => t <> "") ts /\ (length ts <= length items)%nat.
Proof.
  revert ts; induction items as [|it rest IH]; intros ts; simpl.
  - intros H; injection H as <-. split; [constructor | simpl; lia].
  - destruct (main_step it) as [o|] eqn:Hs; [|discriminate].
    destruct (main_loop rest) as [ts'|] eqn:Hl; [|discriminate].
    intros H; injection H as <-.
    destruct (IH ts' eq_refl) as [Hf Hlen].
    destruct o as [t|].
    + split; [|simpl; lia]. constructor; [|exact Hf].
      destruct it as [ev|e]; simpl in Hs; [|discriminate].
      destruct (isFinalResponse ev); [|discriminate].
      destruct (LLMResponse_ ev) as [r|]; [|discriminate].
      pose proof (textParts_nonempty (Content_ r)) as Hn.
      destruct (textParts (Content_ r)) as [|t' ts'']; [discriminate|].
      injection Hs as <-. inversion Hn; assumption.
    + split; [exact Hf | lia].
Qed.

(** An error, then a final event whose first text part is empty. *)
Lemma main_loop_prints_witness :
  main_loop [RunError "model timeout";
             RunEvent (Samples.model_event "math_tutor_agent" Samples.no_actions
                         [Samples.text_part ""; Samples.text_part "15 + 5 = 20"])]
  = Some ["15 + 5 = 20"]
  /\ Forall (fun t => t <> "") ["15 + 5 = 20"].
Proof.
  assert (H : main_loop [RunError "model timeout";
                         RunEvent (Samples.model_event "math_tutor_agent" Samples.no_actions
                                     [Samples.text_part ""; Samples.text_part "15 + 5 = 20"])]
              = Some ["15 + 5 = 20"]) by reflexivity.
  split; [exact H|]. exact (proj1 (main_loop_prints _ _ H)).
Defined.

End ToolsetFacts.

Module CustomerSupportFacts.
Import FinalResponse GoRunner GoStrings CustomerSupport GoStringsFacts.

Lemma last_cons_default {A} (x : A) (l : list A) (d : A) :
  List.last (x :: l) d = List.last l x.
Proof.
  revert x d; induction l as [|y l IH]; intros x d; [reflexivity|].
  change (List.last (y :: l) d = List.last (y :: l) x).
  rewrite (IH y d), (IH y x). reflexivity.
Qed.

Lemma transfer_loop_spec (t : string) (items : list stream_item) :
  transfer_loop t items
  = if all_responded items then Some (List.last (transfers items) t) else None.
Proof.
  revert t; induction items as [|[ev|e] rest IH]; intros t; [reflexivity| |apply IH].
  assert (Ht : transfers (RunEvent ev :: rest)
               = ((if String.eqb (TransferToAgent (Actions ev)) ""%string then [] else [TransferToAgent (Actions ev)])
                 ++ transfers rest)%list) by reflexivity.
  assert (Ha : all_responded (RunEvent ev :: rest)
               = (match LLMResponse_ ev with Some _ => true | None => false end) && all_responded rest)
    by reflexivity.
  rewrite Ht, Ha. cbn [transfer_loop].
  destruct (LLMResponse_ ev); cbn [andb]; [|reflexivity].
  rewrite IH. destruct (all_responded rest); [|reflexivity].
  destruct (String.eqb (TransferToAgent (Actions ev)) ""%string); [reflexivity|].
  cbn [app]. rewrite last_cons_default. reflexivity.
Qed.

Lemma transfers_app (l1 l2 : list stream_item) : transfers (l1 ++ l2) = (transfers l1 ++ transfers l2)%list.
Proof. unfold transfers. apply flat_map_app. Qed.

Lemma transfers_nil (post : list stream_item) :
  transfers post = [] <-> (forall ev, In (RunEvent ev) post -> TransferToAgent (Actions ev) = ""%string).
Proof.
  induction post as [|[ev|e] post IH]; simpl.
  - split; [intros _ ev []|reflexivity].
  - destruct (String.eqb_spec (TransferToAgent (Actions ev)) ""%string) as [He|He]; simpl.
    + rewrite IH. split.
      * intros H ev' [Hx|Hx]; [injection Hx as <-; exact He|auto].
      * intros H ev' Hx. auto.
    + split; [discriminate|]. intros H. exfalso. apply He, H. left. reflexivity.
  - rewrite IH. split.
    + intros H ev [Hx|Hx]; [discriminate|auto].
    + intros H ev Hx. auto.
Qed.

Lemma last_transfer_decomp (items : list stream_item) (s : string) (Hs : s <> ""%string) :
  List.last (transfers items) ""%string = s
  <-> exists pre ev post, items = pre ++ RunEvent ev :: post
        /\ TransferToAgent (Actions ev) = s
        /\ (forall ev', In (RunEvent ev') post -> TransferToAgent (Actions ev') = ""%string).
Proof.
  split.
  - induction items as [|x l IH] using rev_ind.
    + simpl. intros H. symmetry in H. contradiction.
    + rewrite transfers_app. intros H.
      destruct x as [ev|e]; simpl in H; rewrite ?app_nil_r in H.
      * destruct (String.eqb_spec (TransferToAgent (Actions ev)) ""%string) as [He|He].
        -- rewrite ?app_nil_r in H. destruct (IH H) as (pre & ev0 & post & -> & H1 & H2).
           exists pre, ev0, (post ++ [RunEvent ev]). split; [rewrite <- app_assoc; reflexivity|].
           split; [exact H1|]. intros ev' Hin. apply in_app_or in Hin as [Hin|[Hin|[]]]; [auto|].
           injection Hin as <-. exact He.
        -- rewrite List.last_last in H. exists l, ev, []. split; [reflexivity|]. split; [exact H|].
           intros ev' [].
      * rewrite ?app_nil_r in H. destruct (IH H) as (pre & ev0 & post & -> & H1 & H2).
        exists pre, ev0, (post ++ [RunError e]). split; [rewrite <- app_assoc; reflexivity|].
        split; [exact H1|]. intros ev' Hin. apply in_app_or in Hin as [Hin|[Hin|[]]]; [auto|discriminate].
  - intros (pre & ev & post & -> & H1 & H2).
    rewrite transfers_app. simpl. rewrite H1.
    destruct (String.eqb_spec s ""%string) as [|_]; [contradiction|].
    apply transfers_nil in H2. rewrite H2. simpl. apply List.last_last.
Qed.

(** customer_support_agent.go main: the loop runs again with
    support_agent exactly when no event of the stream has a nil
    LLMResponse and the last event with a non-empty TransferToAgent names
    "support_agent": a later transfer to another agent overrides it. *)
Theorem redispatch_last_transfer (items : list stream_item) :
  redispatch items = Some true
  <-> all_responded items = true
      /\ exists pre ev post, items = pre ++ RunEvent ev :: post
           /\ TransferToAgent (Actions ev) = "support_agent"%string
           /\ (forall ev', In (RunEvent ev') post -> TransferToAgent (Actions ev') = ""%string).
Proof.
  unfold redispatch. rewrite transfer_loop_spec.
  rewrite <- last_transfer_decomp by discriminate.
  destruct (all_responded items).
  - split.
    + intros H. injection H as H. split; [reflexivity|]. apply String.eqb_eq. exact H.
    + intros [_ H]. rewrite H. reflexivity.
  - split; [discriminate|]. intros [H _]. discriminate.
Qed.

(** checkAndTransfer: an ASCII query containing "urgent" in any case sets
    TransferToAgent to "support_agent" and reports "transferring",
    leaving the other actions as they were. *)
Theorem checkAndTransfer_urgent (actions : EventActions) (query u : string)
    (Hascii : is_ascii query = true) (Hin : LlmTurn.contains u query = true) (Hu : ToLower u = "urgent"%string) :
  let '(actions', r) := checkAndTransfer actions query in
  TransferToAgent actions' = "support_agent"%string /\ Status r = "transferring"%string
  /\ SkipSummarization actions' = SkipSummarization actions /\ Escalate actions' = Escalate actions.
Proof.
  unfold checkAndTransfer, Contains. apply contains_lower in Hin. rewrite Hu in Hin. rewrite Hin.
  repeat split.
Qed.

(** The query of main. *)
Lemma checkAndTransfer_urgent_witness :
  TransferToAgent (fst (checkAndTransfer Samples.no_actions "this is URGENT, i cant login"))
  = "support_agent"%string.
Proof.
  pose proof (checkAndTransfer_urgent Samples.no_actions "this is URGENT, i cant login" "URGENT"
                eq_refl eq_refl eq_refl) as H.
  destruct (checkAndTransfer Samples.no_actions "this is URGENT, i cant login") as [a r].
  exact (proj1 H).
Defined.

End CustomerSupportFacts.

Module TicketClientFacts.
Import FinalResponse GoRunner TicketClient.

Lemma last_map {A B} (f : A -> B) (l : list A) (d : A) :
  List.last (map f l) (f d) = f (List.last l d).
Proof.
  induction l as [|x l IH]; [reflexivity|]. destruct l as [|y l]; [reflexivity|]. exact IH.
Qed.

Lemma last_app_default {A} (l1 l2 : list A) (d : A) :
  List.last (l1 ++ l2) d = List.last l2 (List.last l1 d).
Proof.
  revert d; induction l1 as [|x l1 IH]; intros d; [reflexivity|].
  rewrite <- app_comm_cons, !CustomerSupportFacts.last_cons_default. apply IH.
Qed.

Lemma fold_capture (ps : list Part) (c : option string) :
  fold_left capture_part ps c = List.last (map Some (part_ticket_ids ps)) c.
Proof.
  revert c; induction ps as [|p ps IH]; intros c; [reflexivity|].
  cbn [fold_left]. rewrite IH. unfold capture_part.
  assert (H : part_ticket_ids (p :: ps)
              = ((match FunctionCall_ p with
                 | Some fc => if String.eqb (FC_Name fc) "create_ticket_long_running" then [FC_ID fc] else []
                 | None => [] end) ++ part_ticket_ids ps)%list) by reflexivity.
  rewrite H. destruct (FunctionCall_ p) as [fc|]; [|reflexivity].
  destruct (String.eqb (FC_Name fc) "create_ticket_long_running"); [|reflexivity].
  cbn [app map]. rewrite CustomerSupportFacts.last_cons_default. reflexivity.
Qed.

Lemma runTurn_loop_spec (c : option string) (items : list stream_item) :
  runTurn_loop c items
  = if all_have_content items then Some (List.last (map Some (ticket_call_ids items)) c) else None.
Proof.
  revert c; induction items as [|[ev|e] rest IH]; intros c; [reflexivity| |apply IH].
  cbn [runTurn_loop].
  assert (H : ticket_call_ids (RunEvent ev :: rest)
              = ((match LLMResponse_ ev with Some r => part_ticket_ids (resp_parts r) | None => [] end)
                 ++ ticket_call_ids rest)%list) by reflexivity.
  assert (Ha : all_have_content (RunEvent ev :: rest)
               = (match LLMResponse_ ev with
                  | Some r => match Content_ r with Some _ => true | None => false end
                  | None => false end) && all_have_content rest) by reflexivity.
  rewrite H, Ha. destruct (LLMResponse_ ev) as [r|]; [|reflexivity].
  unfold resp_parts. destruct (Content_ r) as [cn|]; [|reflexivity]. cbn [andb].
  rewrite IH, fold_capture. destruct (all_have_content rest); [|reflexivity].
  rewrite map_app, last_app_default. reflexivity.
Qed.

(** runTurn (part_012): it panics exactly when some event has a nil
    LLMResponse or a nil Content; otherwise it returns the ID of the last
    create_ticket_long_running call of the stream, or "" if there is
    none. *)
Theorem runTurn_last_ticket_id (items : list stream_item) :
  runTurn items
  = if all_have_content items then Some (List.last (ticket_call_ids items) "") else None.
Proof.
  unfold runTurn. rewrite runTurn_loop_spec. destruct (all_have_content items); [|reflexivity].
  destruct (ticket_call_ids items) as [|x l] eqn:E; [reflexivity|].
  cbn [map]. rewrite !CustomerSupportFacts.last_cons_default, last_map. reflexivity.
Qed.

End TicketClientFacts.

Module DocAnalysisFacts.
Import DocAnalysis.
Local Open Scope string_scope.

Lemma length_append (a b : string) : String.length (a ++ b) = (String.length a + String.length b)%nat.
Proof. induction a as [|c a IH]; simpl; [reflexivity|]. rewrite IH. reflexivity. Qed.

Lemma prefixed_name_ne (p name : string) : p <> "" -> p ++ name <> name.
Proof.
  intros Hp H. apply (f_equal String.length) in H. rewrite length_append in H.
  destruct p; [contradiction|]. simpl in H. lia.
Qed.


Lemma memory_artifacts_contract : save_load_contract memory_artifacts.
Proof.
  intros s n p s' H. simpl in H. injection H as <-. simpl. split.
  - rewrite lookup_insert_eq. reflexivity.
  - intros m Hm. rewrite lookup_insert_ne by congruence. reflexivity.
Qed.

(** processDocument (part_012), over a store whose Save is read back by
    Load and leaves other names alone: either it succeeds, the document
    loaded, and analysis_<name> now holds the analysis text while every
    other artifact, the document included, is unchanged; or it reports
    an error and the store is untouched. *)
Theorem processDocument_outcome {S} (arts : Artifacts S) (Hc : save_load_contract arts)
    (s : S) (name query : string) :
  let '(s', r) := processDocument arts s name query in
  (Status r = "success" /\ AnalysisArtifact r = "analysis_" ++ name
   /\ (exists d, Load arts s name = Ok d)
   /\ Load arts s' ("analysis_" ++ name) = Ok (Some (analysisResult name query))
   /\ Load arts s' name = Load arts s name
   /\ (forall m, m <> "analysis_" ++ name -> Load arts s' m = Load arts s m))
  \/ (Status r = "error" /\ AnalysisArtifact r = "" /\ s' = s).
Proof.
  unfold processDocument.
  destruct (List_ arts s) as [l|e]; [|right; repeat split].
  destruct (Load arts s name) as [d|e] eqn:Hl; [|right; repeat split].
  destruct (Save arts s ("analysis_" ++ name) (analysisResult name query)) as [s'|e] eqn:Hs;
    [|right; repeat split].
  left. destruct (Hc _ _ _ _ Hs) as [H1 H2].
  split; [reflexivity|]. split; [reflexivity|]. split; [eauto|]. split; [exact H1|]. split.
  - rewrite H2, Hl; [reflexivity|]. intros H. symmetry in H. revert H. apply prefixed_name_ne. discriminate.
  - exact H2.
Qed.

(** An in-memory store holding the document. *)
Lemma processDocument_outcome_witness :
  AnalysisArtifact (snd (processDocument memory_artifacts {["mars_report.txt" := "Mars notes"]}
                           "mars_report.txt" "atmosphere"))
  = "analysis_mars_report.txt".
Proof.
  pose proof (processDocument_outcome memory_artifacts memory_artifacts_contract
                {["mars_report.txt" := "Mars notes"]} "mars_report.txt" "atmosphere") as H.
  destruct (processDocument memory_artifacts {["mars_report.txt" := "Mars notes"]}
              "mars_report.txt" "atmosphere") as [s' r] eqn:E.
  destruct H as [(_ & H & _)|(Hs & _)]; [exact H|].
  vm_compute in E. injection E as _ <-. vm_compute in Hs. discriminate Hs.
Defined.

End DocAnalysisFacts.

Module ContextToolsFacts.
Import GoValue ContextTools GoValueFacts.
Local Open Scope string_scope.

Lemma before_model_calls_from (k : nat) (st : gmap string any) (n : Z) :
  st !! "model_calls" = Some (AInt n) -> int_range n ->
  exists st', before_model_calls k st = Some st'
    /\ st' !! "model_calls" = Some (AInt (wrap_int (n + Z.of_nat k)))
    /\ (forall key, key <> "model_calls" -> st' !! key = st !! key).
Proof.
  revert st n; induction k as [|k IH]; intros st n Hn Hr.
  - exists st. split; [reflexivity|]. split; [|auto].
    rewrite Hn, Z.add_0_r, wrap_int_id by exact Hr. reflexivity.
  - cbn [before_model_calls]. unfold myBeforeModelCb at 1. rewrite Hn.
    destruct (IH (<["model_calls" := AInt (wrap_int (n + 1))]> st) (wrap_int (n + 1)))
      as (st' & H1 & H2 & H3).
    + apply lookup_insert_eq.
    + apply wrap_int_range.
    + exists st'. split; [exact H1|]. split.
      * rewrite H2, wrap_int_add_l. do 3 f_equal. lia.
      * intros key Hk. rewrite H3 by exact Hk. apply lookup_insert_ne. congruence.
Qed.

(** myBeforeModelCb (context/main.go): starting from a missing counter
    (read as 0) or a stored int n0, k+1 model calls leave model_calls at
    n0+k+1 (with 64-bit wrap-around), and no other key changes. *)
Theorem model_calls_counted (k : nat) (st : gmap string any) (n0 : Z)
    (Hinit : (st !! "model_calls" = None /\ n0 = 0%Z)
             \/ (st !! "model_calls" = Some (AInt n0) /\ int_range n0)) :
  exists st', before_model_calls (S k) st = Some st'
    /\ st' !! "model_calls" = Some (AInt (wrap_int (n0 + Z.of_nat (S k))))
    /\ (forall key, key <> "model_calls" -> st' !! key = st !! key).
Proof.
  assert (Hcb : myBeforeModelCb st = Some (<["model_calls" := AInt (wrap_int (n0 + 1))]> st)).
  { unfold myBeforeModelCb. destruct Hinit as [[-> ->]|[-> _]]; reflexivity. }
  cbn [before_model_calls]. rewrite Hcb.
  destruct (before_model_calls_from k (<["model_calls" := AInt (wrap_int (n0 + 1))]> st) (wrap_int (n0 + 1)))
    as (st' & H1 & H2 & H3).
  - apply lookup_insert_eq.
  - apply wrap_int_range.
  - exists st'. split; [exact H1|]. split.
    + rewrite H2, wrap_int_add_l. do 3 f_equal. lia.
    + intros key Hk. rewrite H3 by exact Hk. apply lookup_insert_ne. congruence.
Qed.

(** Three calls from a fresh state. *)
Lemma model_calls_counted_witness :
  exists st', before_model_calls 3 ∅ = Some st' /\ st' !! "model_calls" = Some (AInt 3).
Proof.
  destruct (model_calls_counted 2 ∅ 0 ltac:(left; split; reflexivity)) as (st' & H1 & H2 & _).
  exists st'. split; [exact H1|]. rewrite H2. reflexivity.
Defined.

Lemma memory_artifacts_save_load (s : gmap string string) (n p : string) (s' : gmap string string) :
  Save memory_artifacts s n p = Ok s' -> Load memory_artifacts s' n = Ok p.
Proof. simpl. intros H. injection H as <-. rewrite lookup_insert_eq. reflexivity. Qed.

(** saveDocumentReference then summarizeDocumentTool (context/main.go),
    over a store whose Save is read back by Load: after a successful save
    the tool summarizes the saved path (or reports an empty path); a
    failed save returns its error and changes neither the state nor the
    store. *)
Theorem save_then_summarize {S} (arts : Artifacts S)
    (Hc : forall s n p s', Save arts s n p = Ok s' -> Load arts s' n = Ok p)
    (st : gmap string any) (s : S) (filePath : string) :
  let '(st', s', err) := saveDocumentReference arts st s filePath in
  (err = None
   /\ st' = <["temp:doc_artifact_name" := AString "document_to_summarize.txt"]> st
   /\ summarizeDocumentTool arts st' s'
      = Some (Ok (if String.eqb filePath "" then [("error", "Could not load artifact or artifact has no text path.")]
                  else [("summary", "Summary of content from " ++ filePath)])))
  \/ (exists e, err = Some e /\ st' = st /\ s' = s).
Proof.
  unfold saveDocumentReference.
  destruct (Save arts s "document_to_summarize.txt" filePath) as [s'|e] eqn:Hs; [|right; eauto].
  left. split; [reflexivity|]. split; [reflexivity|].
  unfold summarizeDocumentTool. rewrite lookup_insert_eq, (Hc _ _ _ _ Hs). destruct (String.eqb filePath ""); reflexivity.
Qed.

(** An in-memory store. *)
Lemma save_then_summarize_witness :
  let '(st', s', _) := saveDocumentReference memory_artifacts ∅ ∅ "gs://my-bucket/docs/report.pdf" in
  summarizeDocumentTool memory_artifacts st' s'
  = Some (Ok [("summary", "Summary of content from gs://my-bucket/docs/report.pdf")]).
Proof.
  pose proof (save_then_summarize memory_artifacts memory_artifacts_save_load ∅ ∅
                "gs://my-bucket/docs/report.pdf") as H.
  destruct (saveDocumentReference memory_artifacts ∅ ∅ "gs://my-bucket/docs/report.pdf")
    as [[st' s'] err] eqn:E.
  destruct H as [(_ & _ & H)|(e & He & _)]; [exact H|].
  vm_compute in E. injection E as _ _ <-. discriminate He.
Defined.

End ContextToolsFacts.

Module LoopClientFacts.
Import FinalResponse GoRunner LoopClient.

(** The lines and iteration count of one event's step, as the loop body computes them. *)
Lemma print_events_cons (it : nat) (ev : Event) (c : Content) :
  option_bind _ _ Content_ (LLMResponse_ ev) = Some c ->
  exists it' ls,
    (forall rest, print_events it (RunEvent ev :: rest)
                  = ((ls ++ fst (print_events it' rest))%list, snd (print_events it' rest)))
    /\ critique_numbers ls
       = (if String.eqb (Author ev) "CriticAgent" then [S it] else [])
    /\ it' = (if String.eqb (Author ev) "CriticAgent" then S it else it)
    /\ terminations ls = (if Escalate (Actions ev) then 1 else 0)%nat.
Proof.
  intros Hc. cbn [print_events]. rewrite Hc.
  destruct (String.eqb_spec (Author ev) "InitialWriterAgent") as [Ha|Ha];
  [|destruct (String.eqb_spec (Author ev) "CriticAgent") as [Hb|Hb];
  [|destruct (String.eqb_spec (Author ev) "RefinerAgent") as [Hr|Hr]]];
  try rewrite Ha; try rewrite Hb; try rewrite Hr;
  (eexists _, _; split;
   [intros rest; match goal with |- context [print_events ?n rest] => rewrite (surjective_pairing (print_events n rest)) end;
    reflexivity
   | cbn; destruct (Escalate (Actions ev)); repeat split]).
Qed.

Lemma critique_numbers_app (l1 l2 : list line) :
  critique_numbers (l1 ++ l2) = (critique_numbers l1 ++ critique_numbers l2)%list.
Proof. apply flat_map_app. Qed.

Lemma terminations_app (l1 l2 : list line) :
  terminations (l1 ++ l2) = (terminations l1 + terminations l2)%nat.
Proof. unfold terminations. rewrite List.filter_app, length_app. reflexivity. Qed.

(** runAgent's printing loop (loop/main.go): on a stream without errors
    or nil contents it finishes, numbers the critiques 1, 2, ... in
    order (one per CriticAgent event), and prints one termination notice
    per escalating event. *)
Theorem loop_iterations_numbered (it : nat) (items : list stream_item)
    (Hok : forallb item_ok items = true) :
  snd (print_events it items) = Finished
  /\ critique_numbers (fst (print_events it items)) = seq (S it) (critic_count items)
  /\ terminations (fst (print_events it items)) = escalations items.
Proof.
  revert it; induction items as [|[ev|e] rest IH]; intros it; [repeat split| |discriminate].
  cbn [forallb item_ok] in Hok. apply andb_true_iff in Hok as [Hc Hrest].
  destruct (option_bind _ _ Content_ (LLMResponse_ ev)) as [c|] eqn:Hcb; [|discriminate].
  destruct (print_events_cons it ev c Hcb) as (it' & ls & Hstep & H1 & H2 & H3).
  rewrite Hstep.
  destruct (IH Hrest it') as (I1 & I2 & I3). cbn [fst snd].
  split; [exact I1|].
  unfold critic_count, escalations. cbn [List.filter].
  rewrite critique_numbers_app, H1, I2, terminations_app, H3, I3.
  unfold critic_count, escalations. subst it'.
  split.
  - destruct (String.eqb (Author ev) "CriticAgent"); reflexivity.
  - destruct (Escalate (Actions ev)); reflexivity.
Qed.

(** Two critiques and an exitLoop call. *)
Lemma loop_iterations_numbered_witness :
  critique_numbers (fst (print_events 0 Samples.refinement_run)) = [1; 2]
  /\ terminations (fst (print_events 0 Samples.refinement_run)) = 1.
Proof.
  destruct (loop_iterations_numbered 0 Samples.refinement_run eq_refl) as (_ & H1 & H2).
  rewrite H1, H2. split; reflexivity.
Defined.

(** runAgent's printing loop stops at the first error, returning it
    wrapped as "error during agent execution: ..." (or panics at the
    first nil content), having printed exactly the lines of the events
    before it. *)
Theorem loop_stops_at_first_failure (it : nat) (pre post : list stream_item) (x : stream_item)
    (Hpre : forallb item_ok pre = true) (Hx : item_ok x = false) :
  print_events it (pre ++ x :: post)
  = (fst (print_events it pre),
     match x with
     | RunError e => Error ("error during agent execution: " ++ e)%string
     | RunEvent _ => Panic
     end).
Proof.
  revert it; induction pre as [|[ev|e] rest IH]; intros it; [| |discriminate].
  - destruct x as [ev|e]; cbn; [|reflexivity].
    cbn in Hx. destruct (option_bind _ _ Content_ (LLMResponse_ ev)); [discriminate|reflexivity].
  - cbn [forallb item_ok] in Hpre. apply andb_true_iff in Hpre as [Hc Hrest].
    destruct (option_bind _ _ Content_ (LLMResponse_ ev)) as [c|] eqn:Hcb; [|discriminate].
    rewrite <- app_comm_cons.
    destruct (print_events_cons it ev c Hcb) as (it' & ls & Hstep & _ & _ & _).
    rewrite !Hstep, IH by exact Hrest. reflexivity.
Qed.

(** An error after the first critique. *)
Lemma loop_stops_at_first_failure_witness :
  snd (print_events 0 (firstn 2 Samples.refinement_run ++ RunError "quota exceeded"
                       :: skipn 2 Samples.refinement_run))
  = Error "error during agent execution: quota exceeded".
Proof.
  rewrite (loop_stops_at_first_failure 0 (firstn 2 Samples.refinement_run)
             (skipn 2 Samples.refinement_run) (RunError "quota exceeded") eq_refl eq_refl).
  reflexivity.
Defined.

End LoopClientFacts.
